(** * Tic-Tac-Toe: the board model of [Board.py] and the minimax search of
      [TicTacToe.py], embedded in Rocq.

    The Python objects are modelled as follows.
    - [Player] is the three-valued [Enum] of [Board.py].
    - A [Square] has the single slot [_player]; at the value level a square is
      its player, at the object level (module [Obj]) it is a heap cell.
    - Python integers are [Z]; list indexing follows Python (negative indices
      count from the end, an index out of range raises [IndexError]).
    - Exceptions are a [result] type; the recursion depth of [minimax] is
      bounded by a fuel argument, and running out of it is [Diverge].
    - [random.sample] is a library call: it is a parameter [sample] that
      threads a hidden generator state of type [rng]; what is known about it
      is that it returns a permutation of its argument. *)

From Stdlib Require Import List ZArith Bool Lia Permutation Arith.
From Stdlib Require String.
Import ListNotations.
Import String.StringSyntax.
Delimit Scope string_scope with string.
Local Open Scope Z_scope.

(** ** Values *)

Inductive Player : Type := X | O | NONE.

Definition Player_eqb (a b : Player) : bool :=
  match a, b with
  | X, X | O, O | NONE, NONE => true
  | _, _ => false
  end.

Inductive exn : Type := ValueError | IndexError.

Inductive result (A : Type) : Type :=
| Ok (a : A)
| Raise (e : exn)
| Diverge.
Arguments Ok {A} a.
Arguments Raise {A} e.
Arguments Diverge {A}.

Definition rbind {A B} (m : result A) (k : A -> result B) : result B :=
  match m with
  | Ok a => k a
  | Raise e => Raise e
  | Diverge => Diverge
  end.

(** [float("-inf")], an [int], [float("inf")]: the values [minimax] handles. *)
Inductive num : Type := NegInf | Int (z : Z) | PosInf.

(** Python's [a > b] on these values. *)
Definition num_gt (a b : num) : bool :=
  match a, b with
  | NegInf, _ => false
  | Int _, NegInf => true
  | Int x, Int y => y <? x
  | Int _, PosInf => false
  | PosInf, PosInf => false
  | PosInf, _ => true
  end.

(** Python's [a < b]. *)
Definition num_lt (a b : num) : bool := num_gt b a.

(** ** Python list indexing *)

(** [l[i]] for a Python integer [i]. *)
Definition py_get {A} (l : list A) (i : Z) : result A :=
  let n := Z.of_nat (length l) in
  let j := if i <? 0 then n + i else i in
  if (j <? 0) || (n <=? j) then Raise IndexError
  else match nth_error l (Z.to_nat j) with
       | Some a => Ok a
       | None => Raise IndexError
       end.

Fixpoint set_nth {A} (l : list A) (k : nat) (a : A) : list A :=
  match l, k with
  | [], _ => []
  | _ :: t, 0%nat => a :: t
  | h :: t, S k' => h :: set_nth t k' a
  end.

(** The list [l] after the element [l[i]] has been replaced by [a]. *)
Definition py_set {A} (l : list A) (i : Z) (a : A) : result (list A) :=
  let n := Z.of_nat (length l) in
  let j := if i <? 0 then n + i else i in
  if (j <? 0) || (n <=? j) then Raise IndexError
  else Ok (set_nth l (Z.to_nat j) a).

(** [range(n)] *)
Definition range (n : nat) : list Z := map Z.of_nat (seq 0 n).

(** [x in l] for a list of integers. *)
Definition mem (x : Z) (l : list Z) : bool := existsb (Z.eqb x) l.

(** ** Board.py, value level *)

Record Board : Type := mkBoard {
  _board : list Player;
  _current_player : Player
}.

(** [Board()]: nine fresh squares, [X] to move. *)
Definition initial : Board := mkBoard (repeat NONE 9) X.

Definition oppositePlayer (b : Board) : Player :=
  match _current_player b with
  | X => O
  | O => X
  | NONE => NONE
  end.

Definition getCurrentPlayer (b : Board) : Player := _current_player b.

(** The comprehension of [getLegalMoves], before the shuffle. *)
Definition open_squares (b : Board) : list Z :=
  filter (fun s => match py_get (_board b) s with
                   | Ok p => Player_eqb p NONE
                   | _ => false
                   end)
         (range (length (_board b))).

Definition wins : list (Z * Z * Z) :=
  [(0,1,2); (3,4,5); (6,7,8);
   (0,3,6); (1,4,7); (2,5,8);
   (0,4,8); (2,4,6)].

(** The chained comparison [b[w0] == b[w1] == b[w2] != NONE]: operands are
    evaluated left to right and the chain stops at the first false link. *)
Definition line_full (sq : list Player) (w : Z * Z * Z) : result bool :=
  let '(w0, w1, w2) := w in
  rbind (py_get sq w0) (fun a =>
  rbind (py_get sq w1) (fun b =>
  if Player_eqb a b then
    rbind (py_get sq w2) (fun c =>
    if Player_eqb b c then Ok (negb (Player_eqb c NONE)) else Ok false)
  else Ok false)).

Fixpoint isWin_loop (sq : list Player) (ws : list (Z * Z * Z)) : result bool :=
  match ws with
  | [] => Ok false
  | w :: rest =>
      rbind (line_full sq w) (fun hit =>
      if hit then Ok true else isWin_loop sq rest)
  end.

Definition isWin (b : Board) : result bool := isWin_loop (_board b) wins.

Definition evaluate (b : Board) (original_player : Player) : result Z :=
  rbind (isWin b) (fun w1 =>
  if w1 && Player_eqb (_current_player b) original_player then Ok (-1)
  else
    rbind (isWin b) (fun w2 =>
    if w2 && negb (Player_eqb (_current_player b) original_player) then Ok 1
    else Ok 0)).

(** ** Computations that draw from the random generator *)

Definition M (rng A : Type) : Type := rng -> result A * rng.

Definition ret {rng A} (a : A) : M rng A := fun r => (Ok a, r).

Definition raise {rng A} (e : exn) : M rng A := fun r => (Raise e, r).

Definition diverge {rng A} : M rng A := fun r => (Diverge, r).

Definition lift {rng A} (m : result A) : M rng A := fun r => (m, r).

Definition bind {rng A B} (m : M rng A) (k : A -> M rng B) : M rng B :=
  fun r =>
    match m r with
    | (Ok a, r') => k a r'
    | (Raise e, r') => (Raise e, r')
    | (Diverge, r') => (Diverge, r')
    end.

Notation "x <- m ;; k" := (bind m (fun x => k))
  (at level 61, m at next level, right associativity).

(** [for x in l: s = body(x, s)] *)
Fixpoint for_each {rng A S} (l : list A) (body : A -> S -> M rng S) (s : S)
  : M rng S :=
  match l with
  | [] => ret s
  | x :: rest => s' <- body x s ;; for_each rest body s'
  end.

Section Search.

Variable rng : Type.
(** [random.sample(moves, len(moves))] *)
Variable sample : list Z -> rng -> list Z * rng.

Definition getLegalMoves (b : Board) : M rng (list Z) :=
  fun r => let (moves, r') := sample (open_squares b) r in (Ok moves, r').

Definition getNewBoardWithMove (b : Board) (square : Z) : M rng Board :=
  legal <- getLegalMoves b ;;
  if negb (mem square legal) then raise ValueError
  else
    board_copy <- lift (py_set (_board b) square (_current_player b)) ;;
    ret (mkBoard board_copy (oppositePlayer b)).

Definition isDraw (b : Board) : M rng bool :=
  w <- lift (isWin b) ;;
  if negb w then
    legal <- getLegalMoves b ;;
    ret (Nat.eqb (length legal) 0)
  else ret false.

(** ** TicTacToe.py *)

Fixpoint minimax (fuel : nat) (current_board : Board) (is_maximizing : bool)
         (original_player : Player) : M rng num :=
  match fuel with
  | 0%nat => diverge
  | S fuel' =>
      w <- lift (isWin current_board) ;;
      over <- (if w then ret true else isDraw current_board) ;;
      if over then
        v <- lift (evaluate current_board original_player) ;;
        ret (Int v)
      else if is_maximizing then
        moves <- getLegalMoves current_board ;;
        for_each moves
          (fun move best_result =>
             child <- getNewBoardWithMove current_board move ;;
             res <- minimax fuel' child false original_player ;;
             ret (if num_gt res best_result then res else best_result))
          NegInf
      else
        moves <- getLegalMoves current_board ;;
        for_each moves
          (fun move worst_result =>
             child <- getNewBoardWithMove current_board move ;;
             res <- minimax fuel' child true original_player ;;
             ret (if num_lt res worst_result then res else worst_result))
          PosInf
  end.

(** The loop state is the pair [(best_result, best_move)]; [best_move] is
    [None] until a move has been recorded.  The [debug] flag only prints. *)
Definition findBestMove (fuel : nat) (current_board : Board)
  : M rng (option Z) :=
  moves <- getLegalMoves current_board ;;
  st <- for_each moves
          (fun move (st : num * option Z) =>
             child <- getNewBoardWithMove current_board move ;;
             res <- minimax fuel child false
                            (getCurrentPlayer current_board) ;;
             ret (if num_gt res (fst st) then (res, Some move) else st))
          (NegInf, None) ;;
  ret (snd st).

Definition checkForEnd (b : Board) : M rng bool :=
  w <- lift (isWin b) ;;
  if w then ret true
  else
    d <- isDraw b ;;
    if d then ret true else ret false.

(** The game loop of [play] with [findBestMove] moving for both sides:
    the computer's half of the loop body, repeated until [checkForEnd]. *)
Fixpoint selfPlay (rounds fuel : nat) (board : Board) : M rng Board :=
  match rounds with
  | 0%nat => diverge
  | S rounds' =>
      over <- checkForEnd board ;;
      if over then ret board
      else
        computer_move <- findBestMove fuel board ;;
        match computer_move with
        | None =>
            (* [None in legal_moves] is false *)
            _ <- getLegalMoves board ;; raise ValueError
        | Some mv =>
            board' <- getNewBoardWithMove board mv ;;
            selfPlay rounds' fuel board'
        end
  end.

End Search.

Arguments getLegalMoves {rng} sample b.
Arguments getNewBoardWithMove {rng} sample b square.
Arguments isDraw {rng} sample b.
Arguments minimax {rng} sample fuel current_board is_maximizing original_player.
Arguments findBestMove {rng} sample fuel current_board.
Arguments checkForEnd {rng} sample b.
Arguments selfPlay {rng} sample rounds fuel board.

(** Two samplers without hidden state: the one that keeps the order of the
    comprehension and the one that reverses it. *)
Definition sample_id (l : list Z) (r : unit) : list Z * unit := (l, r).
Definition sample_rev (l : list Z) (r : unit) : list Z * unit := (rev l, r).

(** ** Board.py, object level

    Here a [Square] is an object on a heap and a board holds references to
    its squares, so that the effect of [copy.deepcopy] and of [setPlayer]
    on shared squares is visible. *)

Module Obj.

Definition loc : Type := nat.

(** The [_player] slot of every [Square] allocated so far; a reference is
    the position of its square.  References held by a program are never
    dangling, the default of [nth] is not observed. *)
Definition heap : Type := list Player.

Record Board : Type := mkBoard {
  _board : list loc;
  _current_player : Player
}.

Definition getPlayer (h : heap) (s : loc) : Player := nth s h NONE.

Definition setPlayer (h : heap) (s : loc) (player : Player) : heap :=
  set_nth h s player.

(** A new [Square] object whose slot holds [player]. *)
Definition alloc (h : heap) (player : Player) : heap * loc :=
  (h ++ [player], length h).

Fixpoint memo_find (memo : list (loc * loc)) (s : loc) : option loc :=
  match memo with
  | [] => None
  | (k, v) :: rest => if Nat.eqb k s then Some v else memo_find rest s
  end.

(** [copy.deepcopy] of a list of squares.  The memo table makes a square
    that occurs twice in the list occur twice in the copy as well. *)
Fixpoint deepcopy (h : heap) (memo : list (loc * loc)) (l : list loc)
  : heap * list loc :=
  match l with
  | [] => (h, [])
  | s :: rest =>
      match memo_find memo s with
      | Some s' =>
          let (h', rest') := deepcopy h memo rest in (h', s' :: rest')
      | None =>
          let (h1, s') := alloc h (getPlayer h s) in
          let (h', rest') := deepcopy h1 ((s, s') :: memo) rest in
          (h', s' :: rest')
      end
  end.

Definition oppositePlayer (b : Board) : Player :=
  match _current_player b with
  | X => O
  | O => X
  | NONE => NONE
  end.

Definition open_squares (h : heap) (b : Board) : list Z :=
  filter (fun s => match py_get (_board b) s with
                   | Ok sq => Player_eqb (getPlayer h sq) NONE
                   | _ => false
                   end)
         (range (length (_board b))).

Section WithSampler.

Variable rng : Type.
Variable sample : list Z -> rng -> list Z * rng.

Definition getLegalMoves (h : heap) (b : Board) : M rng (list Z) :=
  fun r => let (moves, r') := sample (open_squares h b) r in (Ok moves, r').

(** Returns the outcome together with the heap the call leaves behind. *)
Definition getNewBoardWithMove (h : heap) (b : Board) (square : Z)
  : rng -> (result Board * heap) * rng :=
  fun r =>
    match getLegalMoves h b r with
    | (Ok legal, r') =>
        if negb (mem square legal) then ((Raise ValueError, h), r')
        else
          let (h1, board_copy) := deepcopy h [] (_board b) in
          match py_get board_copy square with
          | Ok sq =>
              ((Ok (mkBoard board_copy (oppositePlayer b)),
                setPlayer h1 sq (_current_player b)), r')
          | Raise e => ((Raise e, h1), r')
          | Diverge => ((Diverge, h1), r')
          end
    | (Raise e, r') => ((Raise e, h), r')
    | (Diverge, r') => ((Diverge, h), r')
    end.

End WithSampler.

Arguments getLegalMoves {rng} sample h b.
Arguments getNewBoardWithMove {rng} sample h b square.

End Obj.

(** What a board object denotes in a heap. *)
Definition view (h : Obj.heap) (b : Obj.Board) : Board :=
  mkBoard (map (Obj.getPlayer h) (Obj._board b)) (Obj._current_player b).

(** The squares of a board object are allocated and pairwise distinct. *)
Definition obj_wf (h : Obj.heap) (b : Obj.Board) : Prop :=
  NoDup (Obj._board b) /\
  Forall (fun s => (s < length h)%nat) (Obj._board b).

(** [Board()] as an object: nine squares allocated in an empty heap. *)
Definition initial_heap : Obj.heap := repeat NONE 9.

Definition initial_obj : Obj.Board := Obj.mkBoard (seq 0 9) X.

(** ** Boards of the game *)

(** Two positions used as examples: [X] has completed the top row and [O]
    is to move; a position with three open squares and [X] to move. *)
Definition won_board : Board :=
  mkBoard [X; X; X; O; O; NONE; NONE; NONE; NONE] O.

Definition mid_board : Board :=
  mkBoard [X; O; X; O; X; NONE; NONE; NONE; O] X.

(** Nine squares and a player to move. *)
Definition wf (b : Board) : Prop :=
  length (_board b) = 9%nat /\ _current_player b <> NONE.

(** The occupant of square [k]. *)
Definition cell (b : Board) (k : nat) : Player := nth k (_board b) NONE.

(** The boards produced from [Board()] by [n] successful moves. *)
Inductive reachable {rng} (sample : list Z -> rng -> list Z * rng)
  : nat -> Board -> Prop :=
| reach_init : reachable sample 0 initial
| reach_move n b square r b' r' :
    reachable sample n b ->
    getNewBoardWithMove sample b square r = (Ok b', r') ->
    reachable sample (S n) b'.

(** A line of the grid: three squares with the same occupant, a player. *)
Definition line_owned (b : Board) (w : Z * Z * Z) : Prop :=
  let '(w0, w1, w2) := w in
  exists p, p <> NONE /\
    py_get (_board b) w0 = Ok p /\
    py_get (_board b) w1 = Ok p /\
    py_get (_board b) w2 = Ok p.

(** ** Reference functions

    Order-free counterparts of the operations above, used to state what the
    search computes and to evaluate it. *)

Definition line (a b c : Player) : bool :=
  Player_eqb a b && Player_eqb b c && negb (Player_eqb c NONE).

Definition lineb (sq : list Player) (w : Z * Z * Z) : bool :=
  let '(w0, w1, w2) := w in
  line (nth (Z.to_nat w0) sq NONE) (nth (Z.to_nat w1) sq NONE)
       (nth (Z.to_nat w2) sq NONE).

Definition winb (b : Board) : bool :=
  match _board b with
  | [a0; a1; a2; a3; a4; a5; a6; a7; a8] =>
      line a0 a1 a2 || line a3 a4 a5 || line a6 a7 a8 ||
      line a0 a3 a6 || line a1 a4 a7 || line a2 a5 a8 ||
      line a0 a4 a8 || line a2 a4 a6
  | _ => false
  end.

Fixpoint empties_from (s : Z) (sq : list Player) : list Z :=
  match sq with
  | [] => []
  | p :: rest =>
      if Player_eqb p NONE then s :: empties_from (s + 1) rest
      else empties_from (s + 1) rest
  end.

Definition empties (b : Board) : list Z := empties_from 0 (_board b).

Definition place (b : Board) (m : Z) : Board :=
  mkBoard (set_nth (_board b) (Z.to_nat m) (_current_player b))
          (oppositePlayer b).

(** One round of the maximising, respectively minimising, loop. *)
Definition step_max (acc : num) (v : Z) : num :=
  if num_gt (Int v) acc then Int v else acc.

Definition step_min (acc : num) (v : Z) : num :=
  if num_lt (Int v) acc then Int v else acc.

Definition max_of (l : list Z) : num := fold_left step_max l NegInf.

Definition min_of (l : list Z) : num := fold_left step_min l PosInf.

(** The three squares of a line are squares of a board of [n] squares. *)
Definition in_range (n : nat) (w : Z * Z * Z) : Prop :=
  let '(w0, w1, w2) := w in
  0 <= w0 < Z.of_nat n /\ 0 <= w1 < Z.of_nat n /\ 0 <= w2 < Z.of_nat n.

Definition unInt (x : num) : Z :=
  match x with Int z => z | _ => 0 end.

(** The game value of [b] for [p], searched [n] plies deep, with the legal
    moves taken in ascending order. *)
Fixpoint value (n : nat) (b : Board) (mx : bool) (p : Player) : Z :=
  if winb b then (if Player_eqb (_current_player b) p then -1 else 1)
  else
    match n with
    | 0%nat => 0
    | S n' =>
        match map (fun m => value n' (place b m) (negb mx) p) (empties b) with
        | [] => 0
        | vs => unInt (if mx then max_of vs else min_of vs)
        end
    end.

(** The score [findBestMove] gives to the move [m] on [b]. *)
Definition score (b : Board) (m : Z) : Z :=
  value 9 (place b m) false (_current_player b).

(** The loop of [findBestMove] as a fold over the scores. *)
Definition pick (g : Z -> Z) (l : list Z) : num * option Z :=
  fold_left (fun st m => if num_gt (Int (g m)) (fst st)
                         then (Int (g m), Some m) else st)
            l (NegInf, None).

(** Every game from [b] in which each side plays some move of maximal score
    ends, within [n] moves, in a draw. *)
Fixpoint drawn (n : nat) (b : Board) : bool :=
  if winb b then false
  else
    match empties b with
    | [] => true
    | ms =>
        match n with
        | 0%nat => false
        | S n' =>
            let scored := map (fun m => (m, score b m)) ms in
            let best := unInt (max_of (map snd scored)) in
            forallb (fun mv => negb (snd mv =? best) || drawn n' (place b (fst mv)))
                    scored
        end
    end.

(** ** The interactive game of [TicTacToe.py]

    The terminal is modelled by what the human types: one entry per line
    read by [input], [Some z] for a line that [int] turns into [z] and
    [None] for a line on which [int] raises.  Of what the program prints,
    the line of [checkForEnd] is kept. *)

Section Play.

Variable rng : Type.
Variable sample : list Z -> rng -> list Z * rng.

(** The loop of [getPlayerMove], entered with the current [player_move]
    ([None] at the start).  A line that does not parse leaves [player_move]
    as it was.  When the input is exhausted [input] raises [EOFError], the
    bare [except] swallows it and the loop goes round for ever.  The lines
    not yet read are returned with the move. *)
Fixpoint getPlayerMove_loop (board : Board) (player_move : option Z)
         (inputs : list (option Z)) {struct inputs}
  : M rng (Z * list (option Z)) :=
  legal <- getLegalMoves sample board ;;
  match player_move with
  | Some z =>
      if mem z legal then ret (z, inputs)
      else
        match inputs with
        | [] => diverge
        | Some z' :: rest => getPlayerMove_loop board (Some z') rest
        | None :: rest => getPlayerMove_loop board player_move rest
        end
  | None =>
      match inputs with
      | [] => diverge
      | Some z' :: rest => getPlayerMove_loop board (Some z') rest
      | None :: rest => getPlayerMove_loop board player_move rest
      end
  end.

Definition getPlayerMove (board : Board) (inputs : list (option Z))
  : M rng (Z * list (option Z)) :=
  getPlayerMove_loop board None inputs.

(** [checkForEnd] with the line it prints: [Some msg] when it prints [msg]
    and returns [True], [None] when it prints nothing and returns [False]. *)
Definition checkForEnd_report (b : Board) (player_name : String.string)
  : M rng (option String.string) :=
  w <- lift (isWin b) ;;
  if w then ret (Some (String.append player_name " wins!"%string))
  else
    d <- isDraw sample b ;;
    if d then ret (Some "It's a draw!"%string) else ret None.

(** The loop of [play]; [rounds] bounds the number of turns of the loop.
    The result is the last board, the line printed by the [checkForEnd]
    that ended the game and the input not yet read. *)
Fixpoint play_loop (rounds fuel : nat) (board : Board)
         (inputs : list (option Z))
  : M rng (Board * String.string * list (option Z)) :=
  match rounds with
  | 0%nat => diverge
  | S rounds' =>
      hm <- getPlayerMove board inputs ;;
      board1 <- getNewBoardWithMove sample board (fst hm) ;;
      e1 <- checkForEnd_report board1 "Human"%string ;;
      match e1 with
      | Some msg => ret (board1, msg, snd hm)
      | None =>
          computer_move <- findBestMove sample fuel board1 ;;
          match computer_move with
          | None => _ <- getLegalMoves sample board1 ;; raise ValueError
          | Some mv =>
              board2 <- getNewBoardWithMove sample board1 mv ;;
              e2 <- checkForEnd_report board2 "Computer"%string ;;
              match e2 with
              | Some msg => ret (board2, msg, snd hm)
              | None => play_loop rounds' fuel board2 (snd hm)
              end
          end
      end
  end.

Definition play (rounds fuel : nat) (inputs : list (option Z))
  : M rng (Board * String.string * list (option Z)) :=
  play_loop rounds fuel initial inputs.

End Play.

Arguments getPlayerMove_loop {rng} sample board player_move inputs.
Arguments getPlayerMove {rng} sample board inputs.
Arguments checkForEnd_report {rng} sample b player_name.
Arguments play_loop {rng} sample rounds fuel board inputs.
Arguments play {rng} sample rounds fuel inputs.

(** [Board(current_player = Player.NONE)]: the constructor accepts a board
    on which nobody is to move. *)
Definition no_mover_board : Board := mkBoard (repeat NONE 9) NONE.

(** ** Further reference functions *)

(** The number of squares of [b] held by [p]. *)
Definition count_player (p : Player) (b : Board) : nat :=
  length (filter (Player_eqb p) (_board b)).

(** The opponent of a player. *)
Definition other (p : Player) : Player :=
  match p with X => O | O => X | NONE => NONE end.

(** The first line of the input that is a legal move of [b], with the
    lines after it. *)
Fixpoint first_legal (b : Board) (inputs : list (option Z))
  : option (Z * list (option Z)) :=
  match inputs with
  | [] => None
  | Some z :: rest =>
      if mem z (open_squares b) then Some (z, rest) else first_legal b rest
  | None :: rest => first_legal b rest
  end.

(** What [getPlayerMove] comes to: the first legal line with the rest of
    the input, or no result when no line is legal. *)
Definition loop_result (b : Board) (inputs : list (option Z))
  : result (Z * list (option Z)) :=
  match first_legal b inputs with
  | Some res => Ok res
  | None => Diverge
  end.

(** With the human to move on [b]: whatever legal move the human makes and
    whatever move of maximal score the computer answers with, the human
    never completes a line within [n] more rounds. *)
Fixpoint unbeaten (n : nat) (b : Board) : bool :=
  match n with
  | 0%nat => match empties b with [] => true | _ => false end
  | S n' =>
      forallb
        (fun h =>
           let b1 := place b h in
           if winb b1 then false
           else
             match empties b1 with
             | [] => true
             | ms =>
                 let best := unInt (max_of (map (score b1) ms)) in
                 forallb
                   (fun c =>
                      negb (score b1 c =? best) ||
                      (let b2 := place b1 c in
                       winb b2 ||
                       match empties b2 with
                       | [] => true
                       | _ => unbeaten n' b2
                       end))
                   ms
             end)
        (empties b)
  end.

(** The input offers a legal move for [k] turns: it consists of [k]
    successive stretches in each of which every number from 0 to 8 occurs. *)
Fixpoint offers (k : nat) (inputs : list (option Z)) : Prop :=
  match k with
  | 0%nat => True
  | S k' =>
      exists blk rest,
        inputs = blk ++ rest /\
        (forall z, 0 <= z <= 8 -> In (Some z) blk) /\
        offers k' rest
  end.

(** The numbers 0 to 8, typed one per line. *)
Definition digits : list (option Z) :=
  [Some 0; Some 1; Some 2; Some 3; Some 4; Some 5; Some 6; Some 7; Some 8].

(** The board after the moves 0, 1, ..., 8 in this order. *)
Definition full_board : Board :=
  place (place (place (place (place (place (place (place (place
    initial 0) 1) 2) 3) 4) 5) 6) 7) 8.

(** What [play] may end with: the computer has won, or the game is drawn;
    it never raises, and it may wait for input for ever. *)
Definition human_not_winner
           (res : result (Board * String.string * list (option Z))) : Prop :=
  match res with
  | Ok (bf, msg, _) =>
      (msg = "Computer wins!"%string /\ isWin bf = Ok true /\
       _current_player bf = X) \/
      (msg = "It's a draw!"%string /\ isWin bf = Ok false /\
       open_squares bf = [])
  | Raise _ => False
  | Diverge => True
  end.

(** * Properties *)

(** ** Lists and indices *)

Lemma Player_eqb_eq (a b : Player) : Player_eqb a b = true <-> a = b.
Proof. destruct a, b; simpl; split; congruence. Qed.

Lemma Player_eqb_refl (a : Player) : Player_eqb a a = true.
Proof. now destruct a. Qed.

Lemma Player_eqb_neq (a b : Player) : Player_eqb a b = false <-> a <> b.
Proof. destruct a, b; simpl; split; congruence. Qed.

Lemma py_get_in_range {A} (l : list A) (i : Z) (d : A) :
  0 <= i < Z.of_nat (length l) ->
  py_get l i = Ok (nth (Z.to_nat i) l d).
Proof.
  intros Hi. unfold py_get.
  destruct (i <? 0) eqn:E1; [apply Z.ltb_lt in E1; lia|].
  rewrite E1.
  destruct (Z.of_nat (length l) <=? i) eqn:E2; [apply Z.leb_le in E2; lia|].
  simpl.
  destruct (nth_error l (Z.to_nat i)) eqn:E3.
  - now rewrite (nth_error_nth _ _ d E3).
  - apply nth_error_None in E3. lia.
Qed.

Lemma py_get_above {A} (l : list A) (i : Z) :
  Z.of_nat (length l) <= i -> py_get l i = Raise IndexError.
Proof.
  intros Hi. unfold py_get.
  destruct (i <? 0) eqn:E1; [apply Z.ltb_lt in E1; lia|].
  rewrite E1.
  destruct (Z.of_nat (length l) <=? i) eqn:E2;
    [|apply Z.leb_gt in E2; lia].
  now rewrite orb_true_r.
Qed.

Lemma py_set_in_range {A} (l : list A) (i : Z) (a : A) :
  0 <= i < Z.of_nat (length l) ->
  py_set l i a = Ok (set_nth l (Z.to_nat i) a).
Proof.
  intros Hi. unfold py_set.
  destruct (i <? 0) eqn:E1; [apply Z.ltb_lt in E1; lia|].
  rewrite E1.
  destruct (Z.of_nat (length l) <=? i) eqn:E2; [apply Z.leb_le in E2; lia|].
  reflexivity.
Qed.

Lemma set_nth_length {A} (l : list A) (k : nat) (a : A) :
  length (set_nth l k a) = length l.
Proof.
  revert k; induction l as [|h t IH]; intros [|k]; simpl; auto.
Qed.

Lemma set_nth_nth {A} (l : list A) (k j : nat) (a d : A) :
  (k < length l)%nat ->
  nth j (set_nth l k a) d = if Nat.eqb j k then a else nth j l d.
Proof.
  revert k j; induction l as [|h t IH]; intros k j Hk; simpl in Hk; [lia|].
  destruct k as [|k], j as [|j]; simpl; auto.
  apply IH. lia.
Qed.

Lemma mem_In (x : Z) (l : list Z) : mem x l = true <-> In x l.
Proof.
  unfold mem. rewrite existsb_exists. split.
  - intros (y & Hy & E). apply Z.eqb_eq in E. now subst.
  - intros H. exists x. split; [assumption|apply Z.eqb_refl].
Qed.

Lemma mem_Permutation (x : Z) (l l' : list Z) :
  Permutation l l' -> mem x l = mem x l'.
Proof.
  intros P. destruct (mem x l') eqn:E.
  - apply mem_In. apply mem_In in E.
    eapply Permutation_in; [apply Permutation_sym; eassumption|assumption].
  - destruct (mem x l) eqn:E'; [|reflexivity].
    apply mem_In in E'. apply (Permutation_in _ P) in E'.
    apply mem_In in E'. congruence.
Qed.

(** ** The legal moves *)

Lemma open_squares_from (pre suf : list Player) :
  filter (fun s => match py_get (pre ++ suf) s with
                   | Ok p => Player_eqb p NONE
                   | _ => false
                   end)
         (map Z.of_nat (seq (length pre) (length suf)))
  = empties_from (Z.of_nat (length pre)) suf.
Proof.
  revert pre; induction suf as [|p rest IH]; intros pre; [reflexivity|].
  simpl seq. simpl map. simpl filter.
  rewrite (py_get_in_range _ _ NONE)
    by (rewrite length_app; simpl; lia).
  rewrite Nat2Z.id, nth_middle.
  specialize (IH (pre ++ [p])).
  rewrite <- app_assoc in IH. simpl in IH.
  rewrite length_app in IH. simpl in IH.
  replace (length pre + 1)%nat with (S (length pre)) in IH by lia.
  replace (Z.of_nat (S (length pre))) with (Z.of_nat (length pre) + 1) in IH
    by lia.
  simpl empties_from.
  destruct (Player_eqb p NONE); rewrite IH; reflexivity.
Qed.

Lemma open_squares_empties (b : Board) : open_squares b = empties b.
Proof.
  unfold open_squares, empties, range.
  exact (open_squares_from [] (_board b)).
Qed.

Lemma empties_from_In (s : Z) (sq : list Player) (m : Z) :
  In m (empties_from s sq) <->
  s <= m < s + Z.of_nat (length sq) /\ nth (Z.to_nat (m - s)) sq NONE = NONE.
Proof.
  revert s; induction sq as [|p rest IH]; intros s; simpl length.
  - simpl. split; [tauto|lia].
  - simpl empties_from.
    assert (Hstep : forall k, s + 1 <= k ->
              Z.to_nat (k - s) = S (Z.to_nat (k - (s + 1)))) by (intros; lia).
    destruct (Player_eqb p NONE) eqn:E.
    + apply Player_eqb_eq in E. subst p. simpl In. rewrite IH. split.
      * intros [<-|(Hr & Hn)].
        -- rewrite Z.sub_diag. simpl. split; [lia|reflexivity].
        -- split; [lia|]. rewrite Hstep by lia. exact Hn.
      * intros (Hr & Hn).
        destruct (Z.eq_dec s m) as [->|Hne]; [now left|right].
        split; [lia|]. rewrite Hstep in Hn by lia. exact Hn.
    + apply Player_eqb_neq in E. rewrite IH. split.
      * intros (Hr & Hn). split; [lia|]. rewrite Hstep by lia. exact Hn.
      * intros (Hr & Hn).
        destruct (Z.eq_dec s m) as [->|Hne].
        -- rewrite Z.sub_diag in Hn. simpl in Hn. contradiction.
        -- split; [lia|]. rewrite Hstep in Hn by lia. exact Hn.
Qed.

Lemma empties_In (b : Board) (m : Z) :
  In m (empties b) <->
  0 <= m < Z.of_nat (length (_board b)) /\ cell b (Z.to_nat m) = NONE.
Proof.
  unfold empties, cell. rewrite empties_from_In.
  rewrite Z.sub_0_r. simpl. tauto.
Qed.

Lemma empties_from_set (s : Z) (sq : list Player) (k : nat) (p : Player) :
  p <> NONE -> (k < length sq)%nat -> nth k sq NONE = NONE ->
  S (length (empties_from s (set_nth sq k p))) = length (empties_from s sq).
Proof.
  intros Hp. revert s k; induction sq as [|q rest IH]; intros s k Hk Hn;
    simpl in Hk; [lia|].
  destruct k as [|k]; simpl in Hn |- *.
  - subst q. simpl. apply Player_eqb_neq in Hp. now rewrite Hp.
  - destruct (Player_eqb q NONE); simpl; rewrite IH; auto; lia.
Qed.

Lemma empties_place (b : Board) (m : Z) :
  _current_player b <> NONE -> In m (empties b) ->
  S (length (empties (place b m))) = length (empties b).
Proof.
  intros Hc Hm. apply empties_In in Hm. destruct Hm as (Hr & Hn).
  unfold empties, place. simpl.
  apply empties_from_set; auto. lia.
Qed.

Lemma empties_from_bound (s : Z) (sq : list Player) :
  (length (empties_from s sq) <= length sq)%nat.
Proof.
  revert s; induction sq as [|q rest IH]; intros s; simpl; [lia|].
  destruct (Player_eqb q NONE); simpl; specialize (IH (s + 1)); lia.
Qed.

Lemma wf_place (b : Board) (m : Z) : wf b -> wf (place b m).
Proof.
  intros (Hl & Hc). split; simpl.
  - now rewrite set_nth_length.
  - unfold oppositePlayer. destruct (_current_player b); congruence.
Qed.

Lemma wf_initial : wf initial.
Proof. split; simpl; [reflexivity|discriminate]. Qed.

Lemma wf_empties_bound (b : Board) :
  wf b -> (length (empties b) <= 9)%nat.
Proof.
  intros (Hl & _). unfold empties. rewrite <- Hl. apply empties_from_bound.
Qed.

(** ** Winning lines *)

Lemma line_full_lineb (sq : list Player) (w : Z * Z * Z) :
  in_range (length sq) w -> line_full sq w = Ok (lineb sq w).
Proof.
  destruct w as [[w0 w1] w2]. intros (H0 & H1 & H2).
  unfold line_full, lineb, line.
  rewrite (py_get_in_range sq w0 NONE H0), (py_get_in_range sq w1 NONE H1),
          (py_get_in_range sq w2 NONE H2).
  simpl.
  destruct (Player_eqb (nth (Z.to_nat w0) sq NONE) (nth (Z.to_nat w1) sq NONE));
    simpl; [|reflexivity].
  destruct (Player_eqb (nth (Z.to_nat w1) sq NONE) (nth (Z.to_nat w2) sq NONE));
    reflexivity.
Qed.

Lemma isWin_loop_existsb (sq : list Player) (ws : list (Z * Z * Z)) :
  Forall (in_range (length sq)) ws ->
  isWin_loop sq ws = Ok (existsb (lineb sq) ws).
Proof.
  induction 1 as [|w rest Hw _ IH]; [reflexivity|].
  simpl. rewrite (line_full_lineb _ _ Hw). simpl.
  destruct (lineb sq w); [reflexivity|exact IH].
Qed.

Lemma wins_in_range : Forall (in_range 9) wins.
Proof. unfold wins, in_range. repeat constructor; lia. Qed.

Lemma nine_cells (b : Board) :
  length (_board b) = 9%nat ->
  exists a0 a1 a2 a3 a4 a5 a6 a7 a8,
    _board b = [a0; a1; a2; a3; a4; a5; a6; a7; a8].
Proof.
  destruct b as [sq c]. simpl.
  do 9 (destruct sq as [|? sq]; [discriminate|]).
  destruct sq; [|discriminate]. intros _.
  repeat eexists.
Qed.

Lemma isWin_winb (b : Board) :
  length (_board b) = 9%nat -> isWin b = Ok (winb b).
Proof.
  intros Hl. unfold isWin.
  rewrite isWin_loop_existsb by (rewrite Hl; apply wins_in_range).
  f_equal. unfold winb.
  destruct (nine_cells b Hl) as (a0&a1&a2&a3&a4&a5&a6&a7&a8&E).
  rewrite E. simpl. rewrite orb_false_r.
  now rewrite !orb_assoc.
Qed.

Lemma lineb_owned (b : Board) (w : Z * Z * Z) :
  in_range (length (_board b)) w ->
  lineb (_board b) w = true <-> line_owned b w.
Proof.
  destruct w as [[w0 w1] w2]. intros (H0 & H1 & H2).
  unfold lineb, line_owned, line.
  rewrite (py_get_in_range _ w0 NONE H0), (py_get_in_range _ w1 NONE H1),
          (py_get_in_range _ w2 NONE H2).
  rewrite !andb_true_iff, negb_true_iff, !Player_eqb_eq, Player_eqb_neq.
  split.
  - intros ((E1 & E2) & Hn).
    exists (nth (Z.to_nat w2) (_board b) NONE).
    rewrite E1, E2. auto.
  - intros (p & Hp & E0 & E1 & E2).
    injection E0 as E0. injection E1 as E1. injection E2 as E2.
    rewrite E0, E1, E2. auto.
Qed.

Lemma evaluate_winb (b : Board) (p : Player) :
  length (_board b) = 9%nat ->
  evaluate b p =
  Ok (if winb b then (if Player_eqb (_current_player b) p then -1 else 1)
      else 0).
Proof.
  intros Hl. unfold evaluate. rewrite (isWin_winb b Hl). simpl.
  destruct (winb b); simpl; [|reflexivity].
  destruct (Player_eqb (_current_player b) p); reflexivity.
Qed.

(** ** Maxima and minima of the loops *)

Lemma fold_max_Int (l : list Z) (a : Z) :
  exists m, fold_left step_max l (Int a) = Int m /\
            (m = a \/ In m l) /\ a <= m /\ (forall x, In x l -> x <= m).
Proof.
  revert a; induction l as [|v rest IH]; intros a; simpl.
  - exists a. split; [reflexivity|]. split; [now left|].
    split; [lia|intros x []].
  - unfold step_max at 2. simpl.
    destruct (a <? v) eqn:E.
    + apply Z.ltb_lt in E. destruct (IH v) as (m & Hf & Hin & Hle & Hall).
      exists m. split; [exact Hf|]. split; [|split].
      * right. destruct Hin; [left; congruence|now right].
      * lia.
      * intros x [<-|Hx]; auto.
    + apply Z.ltb_ge in E. destruct (IH a) as (m & Hf & Hin & Hle & Hall).
      exists m. split; [exact Hf|]. split; [|split].
      * destruct Hin; [now left|right; now right].
      * lia.
      * intros x [<-|Hx]; [lia|auto].
Qed.

Lemma fold_min_Int (l : list Z) (a : Z) :
  exists m, fold_left step_min l (Int a) = Int m /\
            (m = a \/ In m l) /\ m <= a /\ (forall x, In x l -> m <= x).
Proof.
  revert a; induction l as [|v rest IH]; intros a; simpl.
  - exists a. split; [reflexivity|]. split; [now left|].
    split; [lia|intros x []].
  - unfold step_min at 2. unfold num_lt. simpl.
    destruct (v <? a) eqn:E.
    + apply Z.ltb_lt in E. destruct (IH v) as (m & Hf & Hin & Hle & Hall).
      exists m. split; [exact Hf|]. split; [|split].
      * right. destruct Hin; [left; congruence|now right].
      * lia.
      * intros x [<-|Hx]; auto.
    + apply Z.ltb_ge in E. destruct (IH a) as (m & Hf & Hin & Hle & Hall).
      exists m. split; [exact Hf|]. split; [|split].
      * destruct Hin; [now left|right; now right].
      * lia.
      * intros x [<-|Hx]; [lia|auto].
Qed.

Lemma max_of_spec (l : list Z) :
  l <> [] ->
  exists m, max_of l = Int m /\ In m l /\ (forall x, In x l -> x <= m).
Proof.
  destruct l as [|v rest]; [congruence|intros _].
  unfold max_of. simpl.
  destruct (fold_max_Int rest v) as (m & Hf & Hin & Hle & Hall).
  exists m. split; [exact Hf|]. split.
  - destruct Hin; [left; congruence|now right].
  - intros x [<-|Hx]; auto.
Qed.

Lemma min_of_spec (l : list Z) :
  l <> [] ->
  exists m, min_of l = Int m /\ In m l /\ (forall x, In x l -> m <= x).
Proof.
  destruct l as [|v rest]; [congruence|intros _].
  unfold min_of. simpl.
  destruct (fold_min_Int rest v) as (m & Hf & Hin & Hle & Hall).
  exists m. split; [exact Hf|]. split.
  - destruct Hin; [left; congruence|now right].
  - intros x [<-|Hx]; auto.
Qed.

Lemma max_of_Permutation (l l' : list Z) :
  Permutation l l' -> max_of l = max_of l'.
Proof.
  intros P. destruct l as [|v rest].
  - apply Permutation_nil in P. now subst.
  - assert (Hl' : l' <> []).
    { intros ->. apply Permutation_sym, Permutation_nil in P. discriminate. }
    destruct (max_of_spec (v :: rest)) as (m & E & Hin & Hall); [discriminate|].
    destruct (max_of_spec l' Hl') as (m' & E' & Hin' & Hall').
    rewrite E, E'. f_equal.
    apply (Permutation_in _ P) in Hin.
    apply (Permutation_in _ (Permutation_sym P)) in Hin'.
    specialize (Hall _ Hin'). specialize (Hall' _ Hin). lia.
Qed.

Lemma min_of_Permutation (l l' : list Z) :
  Permutation l l' -> min_of l = min_of l'.
Proof.
  intros P. destruct l as [|v rest].
  - apply Permutation_nil in P. now subst.
  - assert (Hl' : l' <> []).
    { intros ->. apply Permutation_sym, Permutation_nil in P. discriminate. }
    destruct (min_of_spec (v :: rest)) as (m & E & Hin & Hall); [discriminate|].
    destruct (min_of_spec l' Hl') as (m' & E' & Hin' & Hall').
    rewrite E, E'. f_equal.
    apply (Permutation_in _ P) in Hin.
    apply (Permutation_in _ (Permutation_sym P)) in Hin'.
    specialize (Hall _ Hin'). specialize (Hall' _ Hin). lia.
Qed.

(** ** The reference value *)

Lemma value_eq (n : nat) (b : Board) (mx : bool) (p : Player) :
  value n b mx p =
  if winb b then (if Player_eqb (_current_player b) p then -1 else 1)
  else
    match n with
    | 0%nat => 0
    | S n' =>
        match map (fun m => value n' (place b m) (negb mx) p) (empties b) with
        | [] => 0
        | vs => unInt (if mx then max_of vs else min_of vs)
        end
    end.
Proof. destruct n; reflexivity. Qed.

Lemma value_stable (n : nat) :
  forall n' b mx p,
    _current_player b <> NONE ->
    (length (empties b) <= n)%nat -> (length (empties b) <= n')%nat ->
    value n b mx p = value n' b mx p.
Proof.
  induction n as [|k IH]; intros n' b mx p Hc Hn Hn'; rewrite !value_eq;
    destruct (winb b); try reflexivity.
  - destruct (empties b); [|simpl in Hn; lia].
    destruct n'; reflexivity.
  - destruct n' as [|k'].
    + destruct (empties b); [reflexivity|simpl in Hn'; lia].
    + rewrite (map_ext_in _ (fun m => value k' (place b m) (negb mx) p));
        [reflexivity|].
      intros m Hm. pose proof (empties_place b m Hc Hm) as Hlen.
      apply IH; try lia.
      simpl. unfold oppositePlayer. destruct (_current_player b); congruence.
Qed.

Lemma fold_left_map_step {A} (f : num -> Z -> num) (g : A -> Z) (l : list A)
      (acc : num) :
  fold_left (fun s x => f s (g x)) l acc = fold_left f (map g l) acc.
Proof. revert acc; induction l; intros; simpl; auto. Qed.

Lemma value_children (b : Board) (mx : bool) (p : Player) :
  wf b -> winb b = false -> empties b <> [] ->
  Int (value 9 b mx p) =
  let vs := map (fun m => value 9 (place b m) (negb mx) p) (empties b) in
  if mx then max_of vs else min_of vs.
Proof.
  intros (Hl & Hc) W Hne. pose proof (wf_empties_bound b (conj Hl Hc)) as Hb.
  rewrite (value_eq 9), W.
  rewrite (map_ext_in _ (fun m => value 9 (place b m) (negb mx) p)).
  2:{ intros m Hm. pose proof (empties_place b m Hc Hm) as Hlen.
      apply value_stable; try lia.
      simpl. unfold oppositePlayer. destruct (_current_player b); congruence. }
  cbv zeta.
  set (vs := map _ (empties b)).
  assert (Hvs : vs <> []).
  { unfold vs. destruct (empties b); [congruence|discriminate]. }
  destruct vs as [|v rest] eqn:Evs; [congruence|].
  destruct mx.
  - destruct (max_of_spec (v :: rest) Hvs) as (m & E & _). now rewrite E.
  - destruct (min_of_spec (v :: rest) Hvs) as (m & E & _). now rewrite E.
Qed.

(** ** The monad *)

Lemma bind_Ok {rng A B} (m : M rng A) (k : A -> M rng B) r a r' :
  m r = (Ok a, r') -> bind m k r = k a r'.
Proof. intros E. unfold bind. now rewrite E. Qed.

Lemma for_each_fold {rng A S} (l : list A) (body : A -> S -> M rng S)
      (f : S -> A -> S) :
  (forall x s r, In x l -> exists r', body x s r = (Ok (f s x), r')) ->
  forall s r, exists r', for_each l body s r = (Ok (fold_left f l s), r').
Proof.
  induction l as [|x rest IH]; intros Hb s r; simpl.
  - now exists r.
  - destruct (Hb x s r (or_introl eq_refl)) as (r1 & E1).
    rewrite (bind_Ok _ _ _ _ _ E1).
    apply IH. intros y s' r0 Hy. apply Hb. now right.
Qed.

Section Sampled.

Variable rng : Type.
Variable sample : list Z -> rng -> list Z * rng.
Hypothesis sample_perm : forall l r, Permutation (fst (sample l r)) l.

Lemma getLegalMoves_perm (b : Board) (r : rng) :
  exists l r', getLegalMoves sample b r = (Ok l, r') /\
               Permutation l (empties b).
Proof.
  unfold getLegalMoves. pose proof (sample_perm (open_squares b) r) as P.
  destruct (sample (open_squares b) r) as [l r']. simpl in P.
  exists l, r'. split; [reflexivity|]. now rewrite <- open_squares_empties.
Qed.

Lemma getNewBoardWithMove_legal (b : Board) (m : Z) (r : rng) :
  In m (empties b) ->
  exists r', getNewBoardWithMove sample b m r = (Ok (place b m), r').
Proof.
  intros Hm. unfold getNewBoardWithMove.
  destruct (getLegalMoves_perm b r) as (l & r' & E & P).
  rewrite (bind_Ok _ _ _ _ _ E).
  rewrite (mem_Permutation m _ _ P).
  pose proof Hm as Hm'. apply mem_In in Hm'. rewrite Hm'. simpl.
  apply empties_In in Hm. destruct Hm as (Hr & _).
  unfold bind, lift, ret. rewrite (py_set_in_range _ _ _ Hr).
  exists r'. reflexivity.
Qed.

Lemma getNewBoardWithMove_illegal (b : Board) (m : Z) (r : rng) :
  ~ In m (empties b) ->
  exists r', getNewBoardWithMove sample b m r = (Raise ValueError, r').
Proof.
  intros Hm. unfold getNewBoardWithMove.
  destruct (getLegalMoves_perm b r) as (l & r' & E & P).
  rewrite (bind_Ok _ _ _ _ _ E).
  rewrite (mem_Permutation m _ _ P).
  destruct (mem m (empties b)) eqn:Em.
  - apply mem_In in Em. contradiction.
  - simpl. exists r'. reflexivity.
Qed.

Lemma isDraw_spec (b : Board) (r : rng) :
  length (_board b) = 9%nat ->
  exists r',
    isDraw sample b r =
    (Ok (negb (winb b) && Nat.eqb (length (empties b)) 0), r').
Proof.
  intros Hl. unfold isDraw, bind at 1, lift.
  rewrite (isWin_winb b Hl).
  destruct (winb b); simpl.
  - exists r. reflexivity.
  - destruct (getLegalMoves_perm b r) as (l & r' & E & P).
    rewrite (bind_Ok _ _ _ _ _ E). unfold ret.
    rewrite (Permutation_length P). now exists r'.
Qed.

(** The body of the three search loops, given what the recursive calls
    return on the children. *)
Section Loops.

Variables (fuel : nat) (b : Board) (mx : bool) (p : Player) (g : Z -> Z).
Hypothesis child_value :
  forall m r, In m (empties b) ->
    exists r', minimax sample fuel (place b m) mx p r = (Ok (Int (g m)), r').

Lemma loop_max (l : list Z) (acc : num) (r : rng) :
  mx = false -> incl l (empties b) ->
  exists r',
    for_each l
      (fun move best_result =>
         child <- getNewBoardWithMove sample b move ;;
         res <- minimax sample fuel child false p ;;
         ret (if num_gt res best_result then res else best_result))
      acc r
    = (Ok (fold_left step_max (map g l) acc), r').
Proof.
  intros -> Hl. rewrite <- fold_left_map_step.
  revert acc r. apply for_each_fold.
  intros m s r Hm. apply Hl in Hm.
  destruct (getNewBoardWithMove_legal b m r Hm) as (r1 & E1).
  rewrite (bind_Ok _ _ _ _ _ E1).
  destruct (child_value m r1 Hm) as (r2 & E2).
  rewrite (bind_Ok _ _ _ _ _ E2).
  exists r2. reflexivity.
Qed.

Lemma loop_min (l : list Z) (acc : num) (r : rng) :
  mx = true -> incl l (empties b) ->
  exists r',
    for_each l
      (fun move worst_result =>
         child <- getNewBoardWithMove sample b move ;;
         res <- minimax sample fuel child true p ;;
         ret (if num_lt res worst_result then res else worst_result))
      acc r
    = (Ok (fold_left step_min (map g l) acc), r').
Proof.
  intros -> Hl. rewrite <- fold_left_map_step.
  revert acc r. apply for_each_fold.
  intros m s r Hm. apply Hl in Hm.
  destruct (getNewBoardWithMove_legal b m r Hm) as (r1 & E1).
  rewrite (bind_Ok _ _ _ _ _ E1).
  destruct (child_value m r1 Hm) as (r2 & E2).
  rewrite (bind_Ok _ _ _ _ _ E2).
  exists r2. reflexivity.
Qed.

Lemma loop_pick (l : list Z) (st : num * option Z) (r : rng) :
  mx = false -> p = getCurrentPlayer b -> incl l (empties b) ->
  exists r',
    for_each l
      (fun move (st : num * option Z) =>
         child <- getNewBoardWithMove sample b move ;;
         res <- minimax sample fuel child false (getCurrentPlayer b) ;;
         ret (if num_gt res (fst st) then (res, Some move) else st))
      st r
    = (Ok (fold_left (fun st m => if num_gt (Int (g m)) (fst st)
                                  then (Int (g m), Some m) else st) l st),
       r').
Proof.
  intros -> -> Hl.
  revert st r. apply for_each_fold.
  intros m s r Hm. apply Hl in Hm.
  destruct (getNewBoardWithMove_legal b m r Hm) as (r1 & E1).
  rewrite (bind_Ok _ _ _ _ _ E1).
  destruct (child_value m r1 Hm) as (r2 & E2).
  rewrite (bind_Ok _ _ _ _ _ E2).
  exists r2. reflexivity.
Qed.

End Loops.

(** [minimax] returns the reference value, whatever the sampler does. *)
Lemma minimax_value (fuel : nat) :
  forall b mx p r,
    wf b -> (length (empties b) < fuel)%nat ->
    exists r', minimax sample fuel b mx p r = (Ok (Int (value 9 b mx p)), r').
Proof.
  induction fuel as [|f IH]; intros b mx p r Hwf Hf; [lia|].
  pose proof Hwf as (Hl & Hc).
  cbn [minimax]. unfold bind at 1, lift. rewrite (isWin_winb b Hl).
  destruct (winb b) eqn:W.
  - unfold bind, ret, lift. rewrite (evaluate_winb b p Hl), W.
    rewrite (value_eq 9), W. now exists r.
  - destruct (isDraw_spec b r Hl) as (r1 & E1).
    rewrite (bind_Ok _ _ _ _ _ E1). rewrite W. simpl andb.
    destruct (Nat.eqb (length (empties b)) 0) eqn:En.
    + apply Nat.eqb_eq in En. apply length_zero_iff_nil in En.
      unfold bind, ret, lift. rewrite (evaluate_winb b p Hl), W.
      rewrite (value_eq 9), W, En. now exists r1.
    + apply Nat.eqb_neq in En.
      assert (Hne : empties b <> []).
      { intros E. rewrite E in En. simpl in En. lia. }
      assert (Hch : forall m r0, In m (empties b) ->
                exists r', minimax sample f (place b m) (negb mx) p r0
                           = (Ok (Int (value 9 (place b m) (negb mx) p)), r')).
      { intros m r0 Hm. apply IH; [now apply wf_place|].
        pose proof (empties_place b m Hc Hm). lia. }
      rewrite (value_children b mx p Hwf W Hne). cbv zeta.
      destruct (getLegalMoves_perm b r1) as (l & r2 & E2 & P).
      destruct mx; cbn [negb andb]; rewrite (bind_Ok _ _ _ _ _ E2).
      * destruct (loop_max f b false p _ Hch l NegInf r2 eq_refl)
          as (r3 & E3).
        { intros x Hx. eapply Permutation_in; eassumption. }
        exists r3. rewrite E3. do 2 f_equal.
        apply max_of_Permutation, Permutation_map, P.
      * destruct (loop_min f b true p _ Hch l PosInf r2 eq_refl)
          as (r3 & E3).
        { intros x Hx. eapply Permutation_in; eassumption. }
        exists r3. rewrite E3. do 2 f_equal.
        apply min_of_Permutation, Permutation_map, P.
Qed.

End Sampled.

(** ** Evaluation of a position *)

(** C10: on a board of nine squares [evaluate] raises no error for any
    player [p]: it returns -1, 0 or 1, and it returns 0 whenever [isWin] is
    false, whether or not the board still has legal moves. *)
Theorem evaluate_never_raises (b : Board) (p : Player) :
  length (_board b) = 9%nat ->
  (exists v, evaluate b p = Ok v /\ (v = -1 \/ v = 0 \/ v = 1)) /\
  (isWin b = Ok false -> evaluate b p = Ok 0).
Proof.
  intros Hl. rewrite (evaluate_winb b p Hl), (isWin_winb b Hl). split.
  - eexists. split; [reflexivity|].
    destruct (winb b); [|auto].
    destruct (Player_eqb (_current_player b) p); auto.
  - intros E. injection E as ->. reflexivity.
Qed.

Lemma evaluate_never_raises_witness :
  (exists v, evaluate mid_board O = Ok v /\ (v = -1 \/ v = 0 \/ v = 1)) /\
  (isWin mid_board = Ok false -> evaluate mid_board O = Ok 0).
Proof. apply (evaluate_never_raises mid_board O). reflexivity. Defined.

(** C1: on a terminal board with a player to move and for a perspective
    player [p], [evaluate] returns 0 when [isDraw] holds; when [isWin] holds
    the winner is the player who is not to move, and [evaluate] returns 1 if
    that winner is [p] and -1 otherwise. *)
Theorem evaluate_terminal {rng} (sample : list Z -> rng -> list Z * rng)
        (b : Board) (p : Player) (r : rng) :
  _current_player b <> NONE -> p <> NONE ->
  (fst (isDraw sample b r) = Ok true -> evaluate b p = Ok 0) /\
  (isWin b = Ok true ->
   evaluate b p = Ok (if Player_eqb (oppositePlayer b) p then 1 else -1)).
Proof.
  intros Hc Hp. split.
  - unfold isDraw, bind, lift, evaluate.
    destruct (isWin b) as [[|]| |]; simpl; try discriminate. reflexivity.
  - intros E. unfold evaluate, oppositePlayer. rewrite E. simpl.
    destruct (_current_player b), p; simpl; congruence.
Qed.

Lemma evaluate_terminal_witness :
  (fst (isDraw sample_id won_board tt) = Ok true ->
   evaluate won_board X = Ok 0) /\
  (isWin won_board = Ok true ->
   evaluate won_board X =
   Ok (if Player_eqb (oppositePlayer won_board) X then 1 else -1)).
Proof.
  apply (evaluate_terminal sample_id won_board X tt); simpl; discriminate.
Defined.

(** ** Detection of a win *)

(** C7: on a board of nine squares [isWin] returns a boolean, and it returns
    true exactly when one of the eight lines (three rows, three columns, two
    diagonals) has its three squares occupied by the same player. *)
Theorem isWin_iff_line (b : Board) :
  length (_board b) = 9%nat ->
  (isWin b = Ok true \/ isWin b = Ok false) /\
  (isWin b = Ok true <->
   exists w, In w [(0,1,2); (3,4,5); (6,7,8);
                   (0,3,6); (1,4,7); (2,5,8);
                   (0,4,8); (2,4,6)] /\ line_owned b w).
Proof.
  intros Hl. unfold isWin.
  pose proof wins_in_range as Hr. rewrite <- Hl in Hr.
  rewrite (isWin_loop_existsb _ _ Hr). split.
  - destruct (existsb (lineb (_board b)) wins); auto.
  - fold wins. split.
    + intros E.
      assert (E' : existsb (lineb (_board b)) wins = true) by congruence.
      apply existsb_exists in E'.
      destruct E' as (w & Hw & E'). exists w. split; [assumption|].
      apply lineb_owned; [|assumption].
      rewrite Forall_forall in Hr. now apply Hr.
    + intros (w & Hw & Ho). f_equal. apply existsb_exists.
      exists w. split; [assumption|]. apply lineb_owned; [|assumption].
      rewrite Forall_forall in Hr. now apply Hr.
Qed.

Lemma isWin_iff_line_witness :
  (isWin won_board = Ok true \/ isWin won_board = Ok false) /\
  (isWin won_board = Ok true <->
   exists w, In w [(0,1,2); (3,4,5); (6,7,8);
                   (0,3,6); (1,4,7); (2,5,8);
                   (0,4,8); (2,4,6)] /\ line_owned won_board w).
Proof. apply (isWin_iff_line won_board). reflexivity. Defined.

(** ** The two stateless samplers *)

Lemma sample_id_perm (l : list Z) (r : unit) :
  Permutation (fst (sample_id l r)) l.
Proof. apply Permutation_refl. Qed.

Lemma sample_rev_perm (l : list Z) (r : unit) :
  Permutation (fst (sample_rev l r)) l.
Proof. simpl. apply Permutation_sym, Permutation_rev. Qed.

(** ** The selection loop *)

Lemma pick_from (g : Z -> Z) (l : list Z) :
  forall pre m post,
    (forall x, In x pre -> g x < g m) ->
    (forall x, In x post -> g x <= g m) ->
    exists pre' m' post',
      fold_left (fun st x => if num_gt (Int (g x)) (fst st)
                             then (Int (g x), Some x) else st)
                l (Int (g m), Some m)
      = (Int (g m'), Some m') /\
      pre ++ m :: post ++ l = pre' ++ m' :: post' /\
      (forall x, In x pre' -> g x < g m') /\
      (forall x, In x post' -> g x <= g m').
Proof.
  induction l as [|y rest IH]; intros pre m post Hpre Hpost.
  - exists pre, m, post. rewrite app_nil_r. auto.
  - simpl fold_left. simpl fst. simpl num_gt.
    destruct (g m <? g y) eqn:E.
    + apply Z.ltb_lt in E.
      destruct (IH (pre ++ m :: post) y []) as (pre' & m' & post' & Hf & Hl & H1 & H2).
      * intros x Hx. apply in_app_or in Hx.
        destruct Hx as [Hx|[<-|Hx]]; [specialize (Hpre _ Hx)| |specialize (Hpost _ Hx)]; lia.
      * intros x [].
      * exists pre', m', post'. split; [exact Hf|]. split; [|auto].
        rewrite <- Hl. simpl. now rewrite <- app_assoc.
    + apply Z.ltb_ge in E.
      destruct (IH pre m (post ++ [y])) as (pre' & m' & post' & Hf & Hl & H1 & H2).
      * exact Hpre.
      * intros x Hx. apply in_app_or in Hx.
        destruct Hx as [Hx|[<-|[]]]; [now apply Hpost|lia].
      * exists pre', m', post'. split; [exact Hf|]. split; [|auto].
        rewrite <- Hl. now rewrite <- app_assoc.
Qed.

Lemma pick_spec (g : Z -> Z) (l : list Z) :
  l <> [] ->
  exists pre m post,
    pick g l = (Int (g m), Some m) /\
    l = pre ++ m :: post /\
    (forall x, In x pre -> g x < g m) /\
    (forall x, In x l -> g x <= g m).
Proof.
  destruct l as [|y rest]; [congruence|intros _].
  unfold pick. simpl fold_left.
  destruct (pick_from g rest [] y []) as (pre & m & post & Hf & Hl & H1 & H2).
  - intros x [].
  - intros x [].
  - exists pre, m, post. simpl in Hl. split; [exact Hf|]. split; [exact Hl|].
    split; [exact H1|].
    intros x Hx. rewrite Hl in Hx. apply in_app_or in Hx.
    destruct Hx as [Hx|[<-|Hx]]; [specialize (H1 _ Hx); lia|lia|auto].
Qed.

Lemma drawn_initial : drawn 9 initial = true.
Proof. vm_compute. reflexivity. Qed.

(** ** Games under best play *)

Lemma drawn_eq (n : nat) (b : Board) :
  drawn n b =
  if winb b then false
  else
    match empties b with
    | [] => true
    | ms =>
        match n with
        | 0%nat => false
        | S n' =>
            let scored := map (fun m => (m, score b m)) ms in
            let best := unInt (max_of (map snd scored)) in
            forallb (fun mv => negb (snd mv =? best) || drawn n' (place b (fst mv)))
                    scored
        end
    end.
Proof. destruct n; reflexivity. Qed.

Lemma drawn_not_won (n : nat) (b : Board) :
  drawn n b = true -> winb b = false.
Proof. rewrite drawn_eq. destruct (winb b); congruence. Qed.

Lemma drawn_zero (b : Board) : drawn 0 b = true -> empties b = [].
Proof.
  rewrite drawn_eq. destruct (winb b); [discriminate|].
  destruct (empties b); [reflexivity|discriminate].
Qed.

Lemma drawn_step (n : nat) (b : Board) (m : Z) :
  drawn (S n) b = true -> In m (empties b) ->
  (forall x, In x (empties b) -> score b x <= score b m) ->
  drawn n (place b m) = true.
Proof.
  rewrite drawn_eq. destruct (winb b); [discriminate|].
  intros Hd Hm Hbest.
  assert (Hne : empties b <> []) by (intros E; rewrite E in Hm; destruct Hm).
  destruct (empties b) as [|z l] eqn:Em; [congruence|].
  cbv zeta in Hd.
  assert (Hs : map snd (map (fun x => (x, score b x)) (z :: l))
               = map (score b) (z :: l)) by (rewrite map_map; reflexivity).
  rewrite Hs in Hd.
  assert (Hmax : unInt (max_of (map (score b) (z :: l))) = score b m).
  { destruct (max_of_spec (map (score b) (z :: l))) as (v & E & Hin & Hall);
      [discriminate|].
    rewrite E. cbn [unInt]. apply in_map_iff in Hin.
    destruct Hin as (x & Ex & Hx).
    specialize (Hbest x Hx).
    specialize (Hall (score b m) (in_map (score b) _ _ Hm)). lia. }
  rewrite Hmax in Hd. rewrite forallb_forall in Hd.
  assert (Hin : In (m, score b m) (map (fun x => (x, score b x)) (z :: l))).
  { apply in_map_iff. exists m. auto. }
  specialize (Hd _ Hin). cbn [fst snd] in Hd.
  rewrite Z.eqb_refl in Hd. exact Hd.
Qed.

Section Claims.

Variable rng : Type.
Variable sample : list Z -> rng -> list Z * rng.
Hypothesis sample_perm : forall l r, Permutation (fst (sample l r)) l.

(** ** Applying a move *)

(** C5: on a board of nine squares and for every integer index,
    [getNewBoardWithMove] raises the invalid-move error ([ValueError])
    exactly when the index is outside 0..8 or the square at the index is
    occupied, and it returns a board in every other case. *)
Theorem getNewBoardWithMove_error_iff (b : Board) (i : Z) (r : rng) :
  length (_board b) = 9%nat ->
  (fst (getNewBoardWithMove sample b i r) = Raise ValueError <->
   (i < 0 \/ 8 < i \/ cell b (Z.to_nat i) <> NONE)) /\
  (fst (getNewBoardWithMove sample b i r) = Raise ValueError \/
   exists b', fst (getNewBoardWithMove sample b i r) = Ok b').
Proof.
  intros Hl. pose proof (empties_In b i) as HI. rewrite Hl in HI.
  destruct (in_dec Z.eq_dec i (empties b)) as [Hin|Hout].
  - destruct (getNewBoardWithMove_legal rng sample sample_perm b i r Hin)
      as (r' & E).
    rewrite E. simpl. apply HI in Hin. destruct Hin as (Hr & Hc). split.
    + split; [discriminate|]. intros [H|[H|H]]; [lia|lia|contradiction].
    + right. eexists. reflexivity.
  - destruct (getNewBoardWithMove_illegal rng sample sample_perm b i r Hout)
      as (r' & E).
    rewrite E. simpl. split; [|now left].
    split; [intros _|reflexivity].
    destruct (Z_lt_dec i 0) as [H0|H0]; [now left|].
    destruct (Z_lt_dec 8 i) as [H8|H8]; [right; now left|].
    right; right. intros Hc. apply Hout, HI. split; [lia|assumption].
Qed.

(** ** Counting the open squares *)

Lemma reachable_inv (n : nat) (b : Board) :
  reachable sample n b ->
  wf b /\ (length (empties b) + n = 9)%nat.
Proof.
  induction 1 as [|n b sq r b' r' _ IH E].
  - split; [apply wf_initial|reflexivity].
  - destruct IH as (Hwf & Hcount).
    destruct (in_dec Z.eq_dec sq (empties b)) as [Hin|Hout].
    + destruct (getNewBoardWithMove_legal rng sample sample_perm b sq r Hin)
        as (r1 & E1).
      rewrite E1 in E. injection E as <- _.
      split; [now apply wf_place|].
      pose proof (empties_place b sq (proj2 Hwf) Hin). lia.
    + destruct (getNewBoardWithMove_illegal rng sample sample_perm b sq r Hout)
        as (r1 & E1).
      rewrite E1 in E. discriminate.
Qed.

(** C9: on a board reached from the empty initial board by [n] successful
    calls of [getNewBoardWithMove], the list returned by [getLegalMoves]
    has length [9 - n]. *)
Theorem legal_moves_count (n : nat) (b : Board) (r : rng) :
  reachable sample n b ->
  exists l r', getLegalMoves sample b r = (Ok l, r') /\
               Z.of_nat (length l) = 9 - Z.of_nat n.
Proof.
  intros Hr. destruct (reachable_inv n b Hr) as (_ & Hcount).
  destruct (getLegalMoves_perm rng sample sample_perm b r) as (l & r' & E & P).
  exists l, r'. split; [exact E|].
  rewrite (Permutation_length P). lia.
Qed.

(** ** The search *)

Lemma child_call (b : Board) (mx : bool) (p : Player) (m : Z) (r0 : rng) :
  wf b -> In m (open_squares b) ->
  exists b' r1,
    getNewBoardWithMove sample b m r0 = (Ok b', r1) /\
    forall f' r2, (length (open_squares b') < f')%nat ->
      fst (minimax sample f' b' mx p r2)
      = Ok (Int (value 9 (place b m) mx p)).
Proof.
  intros Hwf Hm. rewrite open_squares_empties in Hm.
  destruct (getNewBoardWithMove_legal rng sample sample_perm b m r0 Hm)
    as (r1 & E).
  exists (place b m), r1. split; [exact E|].
  intros f' r2 Hf. rewrite open_squares_empties in Hf.
  destruct (minimax_value rng sample sample_perm f' (place b m) mx p r2
              (wf_place b m Hwf) Hf) as (r3 & E3).
  now rewrite E3.
Qed.

(** C3: on a board of nine squares with a player to move, [minimax]
    returns an integer [v].  If [isWin] or [isDraw] holds, [v] is what
    [evaluate] returns for the perspective player.  Otherwise [v] is the
    maximum (when maximizing) or the minimum (when not) over the legal
    moves [m] of what [minimax] returns on the board after [m], with the
    flag negated and the same perspective player. *)
Theorem minimax_equations (b : Board) (mx : bool) (p : Player)
        (fuel : nat) (r : rng) :
  wf b -> (length (open_squares b) < fuel)%nat ->
  exists v,
    fst (minimax sample fuel b mx p r) = Ok (Int v) /\
    ((isWin b = Ok true \/ fst (isDraw sample b r) = Ok true) ->
     evaluate b p = Ok v) /\
    (isWin b = Ok false -> fst (isDraw sample b r) = Ok false ->
     exists child : Z -> Z,
       (forall m, In m (open_squares b) -> forall r0,
          exists b' r1,
            getNewBoardWithMove sample b m r0 = (Ok b', r1) /\
            forall f' r2, (length (open_squares b') < f')%nat ->
              fst (minimax sample f' b' (negb mx) p r2) = Ok (Int (child m))) /\
       (exists m, In m (open_squares b) /\ child m = v) /\
       (forall m, In m (open_squares b) ->
          if mx then child m <= v else v <= child m)).
Proof.
  intros Hwf Hf. pose proof Hwf as (Hl & Hc).
  exists (value 9 b mx p). split; [|split].
  - rewrite open_squares_empties in Hf.
    destruct (minimax_value rng sample sample_perm fuel b mx p r Hwf Hf)
      as (r' & E).
    now rewrite E.
  - intros Hterm. rewrite (evaluate_winb b p Hl). apply f_equal.
    rewrite (value_eq 9).
    destruct (isDraw_spec rng sample sample_perm b r Hl) as (r' & Ed).
    rewrite Ed, (isWin_winb b Hl) in Hterm. simpl in Hterm.
    destruct (winb b); [reflexivity|].
    destruct Hterm as [Hw|Hd]; [discriminate|].
    simpl in Hd. injection Hd as Hd. apply Nat.eqb_eq in Hd.
    apply length_zero_iff_nil in Hd. now rewrite Hd.
  - intros Hw Hd. rewrite (isWin_winb b Hl) in Hw. injection Hw as Hw.
    destruct (isDraw_spec rng sample sample_perm b r Hl) as (r' & Ed).
    rewrite Ed, Hw in Hd. simpl in Hd. injection Hd as Hd.
    apply Nat.eqb_neq in Hd.
    assert (Hne : empties b <> []).
    { intros E. rewrite E in Hd. simpl in Hd. lia. }
    exists (fun m => value 9 (place b m) (negb mx) p).
    split; [|split].
    + intros m Hm r0. now apply child_call.
    + pose proof (value_children b mx p Hwf Hw Hne) as Hv. cbv zeta in Hv.
      set (vs := map (fun m => value 9 (place b m) (negb mx) p) (empties b))
        in Hv.
      assert (Hvs : vs <> []).
      { unfold vs. destruct (empties b); [congruence|discriminate]. }
      rewrite open_squares_empties.
      assert (Hin : In (value 9 b mx p) vs).
      { destruct mx.
        - destruct (max_of_spec vs Hvs) as (m & E & Hin & _).
          rewrite E in Hv. replace (value 9 b _ p) with m by congruence.
          exact Hin.
        - destruct (min_of_spec vs Hvs) as (m & E & Hin & _).
          rewrite E in Hv. replace (value 9 b _ p) with m by congruence.
          exact Hin. }
      apply in_map_iff in Hin. destruct Hin as (m & E & Hm).
      exists m. auto.
    + intros m Hm. rewrite open_squares_empties in Hm.
      pose proof (value_children b mx p Hwf Hw Hne) as Hv. cbv zeta in Hv.
      set (vs := map (fun m => value 9 (place b m) (negb mx) p) (empties b))
        in Hv.
      assert (Hvs : vs <> []).
      { unfold vs. destruct (empties b); [congruence|discriminate]. }
      assert (Hin : In (value 9 (place b m) (negb mx) p) vs).
      { unfold vs. apply in_map_iff. exists m. auto. }
      destruct mx.
      * destruct (max_of_spec vs Hvs) as (m' & E & _ & Hall).
        rewrite E in Hv. replace (value 9 b _ p) with m' by congruence.
        now apply Hall.
      * destruct (min_of_spec vs Hvs) as (m' & E & _ & Hall).
        rewrite E in Hv. replace (value 9 b _ p) with m' by congruence.
        now apply Hall.
Qed.

Lemma findBestMove_pick (fuel : nat) (b : Board) (r : rng) (order : list Z)
      (r1 : rng) :
  wf b -> (length (empties b) <= fuel)%nat ->
  getLegalMoves sample b r = (Ok order, r1) ->
  exists r',
    findBestMove sample fuel b r = (Ok (snd (pick (score b) order)), r').
Proof.
  intros Hwf Hf E. pose proof Hwf as (Hl & Hc).
  destruct (getLegalMoves_perm rng sample sample_perm b r) as (l & r2 & E2 & P).
  rewrite E in E2. injection E2 as <- <-.
  unfold findBestMove. rewrite (bind_Ok _ _ _ _ _ E).
  assert (Hch : forall m r0, In m (empties b) ->
            exists r', minimax sample fuel (place b m) false
                               (getCurrentPlayer b) r0
                       = (Ok (Int (score b m)), r')).
  { intros m r0 Hm. apply (minimax_value rng sample sample_perm).
    - now apply wf_place.
    - pose proof (empties_place b m Hc Hm). lia. }
  destruct (loop_pick rng sample sample_perm fuel b false
              (getCurrentPlayer b) (score b) Hch order (NegInf, None) r1
              eq_refl eq_refl) as (r3 & E3).
  { intros x Hx. eapply Permutation_in; eassumption. }
  rewrite (bind_Ok _ _ _ _ _ E3). exists r3. reflexivity.
Qed.

(** C4: on a board of nine squares with a player to move and at least one
    legal move, [findBestMove] returns the first move, in the order in
    which its call of [getLegalMoves] lists them, whose score is maximal
    among the legal moves; the score of a move is what [minimax] returns on
    the board after it, not maximizing, for the player to move. *)
Theorem findBestMove_first_max (fuel : nat) (b : Board) (r : rng)
        (order : list Z) (r1 : rng) :
  wf b -> (length (open_squares b) <= fuel)%nat ->
  getLegalMoves sample b r = (Ok order, r1) -> order <> [] ->
  exists (sc : Z -> Z) pre m post,
    fst (findBestMove sample fuel b r) = Ok (Some m) /\
    order = pre ++ m :: post /\
    (forall x, In x order -> forall r0,
       exists b' r0',
         getNewBoardWithMove sample b x r0 = (Ok b', r0') /\
         forall f' r2, (length (open_squares b') < f')%nat ->
           fst (minimax sample f' b' false (getCurrentPlayer b) r2)
           = Ok (Int (sc x))) /\
    (forall x, In x order -> sc x <= sc m) /\
    (forall x, In x pre -> sc x < sc m).
Proof.
  intros Hwf Hf E Hne. rewrite open_squares_empties in Hf.
  destruct (findBestMove_pick fuel b r order r1 Hwf Hf E) as (r' & Ef).
  destruct (pick_spec (score b) order Hne)
    as (pre & m & post & Hp & Ho & Hpre & Hall).
  exists (score b), pre, m, post.
  rewrite Ef, Hp. simpl. split; [reflexivity|]. split; [exact Ho|].
  split; [|split; assumption].
  intros x Hx r0. apply child_call; [assumption|].
  destruct (getLegalMoves_perm rng sample sample_perm b r) as (l & r2 & E2 & P).
  rewrite E in E2. injection E2 as <- <-.
  rewrite open_squares_empties. eapply Permutation_in; eassumption.
Qed.

(** ** Playing the search against itself *)

Lemma checkForEnd_spec (b : Board) (r : rng) :
  length (_board b) = 9%nat ->
  exists r',
    checkForEnd sample b r
    = (Ok (winb b || Nat.eqb (length (empties b)) 0), r').
Proof.
  intros Hl. unfold checkForEnd, bind at 1, lift.
  rewrite (isWin_winb b Hl).
  destruct (winb b) eqn:W; simpl.
  - now exists r.
  - destruct (isDraw_spec rng sample sample_perm b r Hl) as (r1 & E1).
    rewrite (bind_Ok _ _ _ _ _ E1), W. simpl.
    exists r1. now destruct (Nat.eqb (length (empties b)) 0).
Qed.

Lemma selfPlay_drawn (n : nat) :
  forall rounds fuel b r,
    wf b -> drawn n b = true -> (n < rounds)%nat -> (9 <= fuel)%nat ->
    exists bf r',
      selfPlay sample rounds fuel b r = (Ok bf, r') /\
      wf bf /\ winb bf = false /\ empties bf = [].
Proof.
  induction n as [|n IH]; intros rounds fuel b r Hwf Hd Hn Hfuel;
    (destruct rounds as [|k]; [lia|]); pose proof Hwf as (Hl & Hc);
    pose proof (drawn_not_won _ _ Hd) as W;
    cbn [selfPlay];
    destruct (checkForEnd_spec b r Hl) as (r1 & E1);
    rewrite (bind_Ok _ _ _ _ _ E1), W; simpl orb.
  - rewrite (drawn_zero b Hd). simpl. exists b, r1.
    split; [reflexivity|]. split; [assumption|]. split; [assumption|].
    now apply drawn_zero.
  - destruct (Nat.eqb (length (empties b)) 0) eqn:En.
    + apply Nat.eqb_eq, length_zero_iff_nil in En.
      exists b, r1. auto.
    + apply Nat.eqb_neq in En.
      destruct (getLegalMoves_perm rng sample sample_perm b r1)
        as (order & r2 & E2 & P).
      assert (Hf : (length (empties b) <= fuel)%nat).
      { pose proof (wf_empties_bound b Hwf). lia. }
      destruct (findBestMove_pick fuel b r1 order r2 Hwf Hf E2) as (r3 & E3).
      assert (Hne : order <> []).
      { intros ->. apply Permutation_nil in P.
        rewrite P in En. simpl in En. lia. }
      destruct (pick_spec (score b) order Hne)
        as (pre & m & post & Hp & Ho & _ & Hall).
      rewrite Hp in E3. cbn [snd] in E3.
      cbn [orb]. rewrite (bind_Ok _ _ _ _ _ E3). cbv beta iota.
      assert (Hm : In m (empties b)).
      { apply (Permutation_in _ P). rewrite Ho.
        apply in_or_app. right. now left. }
      destruct (getNewBoardWithMove_legal rng sample sample_perm b m r3 Hm)
        as (r4 & E4).
      rewrite (bind_Ok _ _ _ _ _ E4).
      apply IH; [now apply wf_place| |lia|assumption].
      apply (drawn_step n b m Hd Hm).
      intros x Hx. apply Hall.
      apply (Permutation_in _ (Permutation_sym P)), Hx.
Qed.

(** C2: from the empty initial board, with [findBestMove] choosing the move
    of the side to move until the game is over, the game ends, and it ends
    on a board where [isWin] is false and [isDraw] is true, whatever orders
    the enumeration of the legal moves produces along the way. *)
Theorem selfPlay_ends_in_draw (rounds fuel : nat) (r : rng) :
  (9 < rounds)%nat -> (9 <= fuel)%nat ->
  exists bf r',
    selfPlay sample rounds fuel initial r = (Ok bf, r') /\
    isWin bf = Ok false /\
    (forall r0, fst (isDraw sample bf r0) = Ok true).
Proof.
  intros Hr Hf.
  destruct (selfPlay_drawn 9 rounds fuel initial r wf_initial drawn_initial
              Hr Hf) as (bf & r' & E & (Hl & Hc) & W & Em).
  exists bf, r'. split; [exact E|]. split.
  - now rewrite (isWin_winb bf Hl), W.
  - intros r0.
    destruct (isDraw_spec rng sample sample_perm bf r0 Hl) as (r1 & E1).
    now rewrite E1, W, Em.
Qed.

End Claims.

(** C8: on a board of nine squares with a player to move, the integer that
    [minimax] returns does not depend on the orders in which the legal moves
    are enumerated at the nodes of the recursion: two runs with two arbitrary
    samplers, started in arbitrary generator states, return the same value. *)
Theorem minimax_order_independent {rng1 rng2}
        (sample1 : list Z -> rng1 -> list Z * rng1)
        (sample2 : list Z -> rng2 -> list Z * rng2)
        (b : Board) (mx : bool) (p : Player) (f1 f2 : nat)
        (r1 : rng1) (r2 : rng2) :
  (forall l r, Permutation (fst (sample1 l r)) l) ->
  (forall l r, Permutation (fst (sample2 l r)) l) ->
  wf b ->
  (length (open_squares b) < f1)%nat -> (length (open_squares b) < f2)%nat ->
  exists v,
    fst (minimax sample1 f1 b mx p r1) = Ok (Int v) /\
    fst (minimax sample2 f2 b mx p r2) = Ok (Int v).
Proof.
  intros P1 P2 Hwf H1 H2. rewrite open_squares_empties in H1, H2.
  destruct (minimax_value rng1 sample1 P1 f1 b mx p r1 Hwf H1) as (r1' & E1).
  destruct (minimax_value rng2 sample2 P2 f2 b mx p r2 Hwf H2) as (r2' & E2).
  exists (value 9 b mx p). now rewrite E1, E2.
Qed.

Lemma wf_mid_board : wf mid_board.
Proof. split; [reflexivity|discriminate]. Qed.

Lemma minimax_order_independent_witness :
  exists v,
    fst (minimax sample_id 4 mid_board true X tt) = Ok (Int v) /\
    fst (minimax sample_rev 5 mid_board true X tt) = Ok (Int v).
Proof.
  apply (minimax_order_independent sample_id sample_rev mid_board true X 4 5
           tt tt sample_id_perm sample_rev_perm wf_mid_board);
    vm_compute; lia.
Defined.

Lemma getNewBoardWithMove_error_iff_witness :
  (fst (getNewBoardWithMove sample_id mid_board 4 tt) = Raise ValueError <->
   (4 < 0 \/ 8 < 4 \/ cell mid_board (Z.to_nat 4) <> NONE)) /\
  (fst (getNewBoardWithMove sample_id mid_board 4 tt) = Raise ValueError \/
   exists b', fst (getNewBoardWithMove sample_id mid_board 4 tt) = Ok b').
Proof.
  apply (getNewBoardWithMove_error_iff unit sample_id sample_id_perm
           mid_board 4 tt).
  reflexivity.
Defined.

Lemma reachable_after_centre :
  reachable sample_rev 1 (place initial 4).
Proof.
  apply (reach_move sample_rev 0 initial 4 tt (place initial 4) tt).
  - apply reach_init.
  - reflexivity.
Qed.

Lemma legal_moves_count_witness :
  exists l r', getLegalMoves sample_rev (place initial 4) tt = (Ok l, r') /\
               Z.of_nat (length l) = 9 - Z.of_nat 1.
Proof.
  apply (legal_moves_count unit sample_rev sample_rev_perm 1
           (place initial 4) tt).
  apply reachable_after_centre.
Defined.

Lemma minimax_equations_witness :
  exists v,
    fst (minimax sample_rev 4 mid_board true X tt) = Ok (Int v) /\
    ((isWin mid_board = Ok true \/
      fst (isDraw sample_rev mid_board tt) = Ok true) ->
     evaluate mid_board X = Ok v) /\
    (isWin mid_board = Ok false ->
     fst (isDraw sample_rev mid_board tt) = Ok false ->
     exists child : Z -> Z,
       (forall m, In m (open_squares mid_board) -> forall r0,
          exists b' r1,
            getNewBoardWithMove sample_rev mid_board m r0 = (Ok b', r1) /\
            forall f' r2, (length (open_squares b') < f')%nat ->
              fst (minimax sample_rev f' b' (negb true) X r2)
              = Ok (Int (child m))) /\
       (exists m, In m (open_squares mid_board) /\ child m = v) /\
       (forall m, In m (open_squares mid_board) ->
          if true then child m <= v else v <= child m)).
Proof.
  apply (minimax_equations unit sample_rev sample_rev_perm mid_board true X 4
           tt wf_mid_board).
  vm_compute. lia.
Defined.

Lemma findBestMove_first_max_witness :
  exists (sc : Z -> Z) pre m post,
    fst (findBestMove sample_rev 3 mid_board tt) = Ok (Some m) /\
    [7; 6; 5] = pre ++ m :: post /\
    (forall x, In x [7; 6; 5] -> forall r0,
       exists b' r0',
         getNewBoardWithMove sample_rev mid_board x r0 = (Ok b', r0') /\
         forall f' r2, (length (open_squares b') < f')%nat ->
           fst (minimax sample_rev f' b' false (getCurrentPlayer mid_board) r2)
           = Ok (Int (sc x))) /\
    (forall x, In x [7; 6; 5] -> sc x <= sc m) /\
    (forall x, In x pre -> sc x < sc m).
Proof.
  apply (findBestMove_first_max unit sample_rev sample_rev_perm 3 mid_board
           tt [7; 6; 5] tt wf_mid_board).
  - vm_compute. lia.
  - reflexivity.
  - discriminate.
Defined.

Lemma selfPlay_ends_in_draw_witness :
  exists bf r',
    selfPlay sample_rev 10 9 initial tt = (Ok bf, r') /\
    isWin bf = Ok false /\
    (forall r0, fst (isDraw sample_rev bf r0) = Ok true).
Proof.
  apply (selfPlay_ends_in_draw unit sample_rev sample_rev_perm 10 9 tt); lia.
Defined.

(** ** Board objects and the heap *)

Lemma py_get_map {A B} (f : A -> B) (l : list A) (i : Z) :
  py_get (map f l) i = rbind (py_get l i) (fun x => Ok (f x)).
Proof.
  unfold py_get. rewrite length_map.
  destruct (((if i <? 0 then Z.of_nat (length l) + i else i) <? 0)
            || (Z.of_nat (length l) <=?
                (if i <? 0 then Z.of_nat (length l) + i else i)));
    [reflexivity|].
  rewrite nth_error_map.
  destruct (nth_error l _); reflexivity.
Qed.

Lemma obj_open_squares_view (h : Obj.heap) (b : Obj.Board) :
  Obj.open_squares h b = open_squares (view h b).
Proof.
  unfold Obj.open_squares, open_squares, view. simpl.
  rewrite length_map. apply filter_ext. intros s.
  rewrite py_get_map. destruct (py_get (Obj._board b) s); reflexivity.
Qed.

Lemma getPlayer_app (h t : Obj.heap) (s : Obj.loc) :
  (s < length h)%nat -> Obj.getPlayer (h ++ t) s = Obj.getPlayer h s.
Proof. intros Hs. unfold Obj.getPlayer. now apply app_nth1. Qed.

Lemma map_getPlayer_app (h t : Obj.heap) (l : list Obj.loc) :
  Forall (fun s => (s < length h)%nat) l ->
  map (Obj.getPlayer (h ++ t)) l = map (Obj.getPlayer h) l.
Proof.
  intros Hl. apply map_ext_in. intros s Hs.
  apply getPlayer_app. rewrite Forall_forall in Hl. now apply Hl.
Qed.

Lemma map_getPlayer_fresh (t h : Obj.heap) :
  map (Obj.getPlayer (h ++ t)) (seq (length h) (length t)) = t.
Proof.
  revert h; induction t as [|a t IH]; intros h; [reflexivity|].
  simpl. f_equal.
  - unfold Obj.getPlayer. apply nth_middle.
  - specialize (IH (h ++ [a])).
    rewrite <- app_assoc, length_app in IH. simpl in IH.
    replace (length h + 1)%nat with (S (length h)) in IH by lia.
    exact IH.
Qed.

Lemma set_nth_app {A} (h t : list A) (k : nat) (a : A) :
  set_nth (h ++ t) (length h + k) a = h ++ set_nth t k a.
Proof.
  induction h as [|x h IH]; simpl; [reflexivity|].
  now rewrite IH.
Qed.

Lemma deepcopy_fresh (l : list Obj.loc) :
  forall h memo,
    NoDup l ->
    (forall s, In s l -> Obj.memo_find memo s = None) ->
    Forall (fun s => (s < length h)%nat) l ->
    Obj.deepcopy h memo l
    = (h ++ map (Obj.getPlayer h) l, seq (length h) (length l)).
Proof.
  induction l as [|s rest IH]; intros h memo Hnd Hmemo Hall.
  - simpl. now rewrite app_nil_r.
  - simpl. rewrite (Hmemo s (or_introl eq_refl)).
    unfold Obj.alloc.
    inversion Hnd as [|? ? Hnotin Hnd']; subst.
    inversion Hall as [|? ? Hs Hall']; subst.
    rewrite IH.
    + rewrite (map_getPlayer_app h _ rest Hall').
      rewrite <- app_assoc, length_app. simpl.
      replace (length h + 1)%nat with (S (length h)) by lia.
      reflexivity.
    + exact Hnd'.
    + intros x Hx. simpl.
      destruct (Nat.eqb s x) eqn:E.
      * apply Nat.eqb_eq in E. subst. contradiction.
      * apply Hmemo. now right.
    + rewrite Forall_forall in Hall' |- *. intros x Hx.
      rewrite length_app. specialize (Hall' x Hx). simpl. lia.
Qed.

Lemma py_get_seq (a n : nat) (i : Z) :
  0 <= i < Z.of_nat n ->
  py_get (seq a n) i = Ok (a + Z.to_nat i)%nat.
Proof.
  intros Hi. rewrite (py_get_in_range _ _ 0%nat) by (rewrite length_seq; lia).
  f_equal. apply seq_nth. lia.
Qed.

(** C6: for a board object whose squares are allocated and distinct, a call
    of [getNewBoardWithMove] leaves the board it is called on unchanged,
    every square and the player to move, both when it returns and when it
    raises the invalid-move error (then the heap is untouched).  For a legal
    move [i] it returns a board that agrees with the original except that
    square [i] holds the original's player to move and the turn has passed
    to the opposite player. *)
Theorem getNewBoardWithMove_frame {rng}
        (sample : list Z -> rng -> list Z * rng)
        (h : Obj.heap) (b : Obj.Board) (i : Z) (r : rng) :
  (forall l r, Permutation (fst (sample l r)) l) ->
  obj_wf h b ->
  exists res h' r',
    Obj.getNewBoardWithMove sample h b i r = ((res, h'), r') /\
    view h' b = view h b /\
    (forall s, (s < length h)%nat -> Obj.getPlayer h' s = Obj.getPlayer h s) /\
    (In i (open_squares (view h b)) ->
     exists b',
       res = Ok b' /\
       length (_board (view h' b')) = length (_board (view h b)) /\
       (forall k, cell (view h' b') k
                  = if Nat.eqb k (Z.to_nat i) then _current_player (view h b)
                    else cell (view h b) k) /\
       _current_player (view h' b') = oppositePlayer (view h b)) /\
    (~ In i (open_squares (view h b)) -> res = Raise ValueError /\ h' = h).
Proof.
  intros Hperm (Hnd & Hall).
  unfold Obj.getNewBoardWithMove, Obj.getLegalMoves.
  pose proof (Hperm (Obj.open_squares h b) r) as P.
  destruct (sample (Obj.open_squares h b) r) as [legal r'] eqn:Es.
  simpl in P. rewrite obj_open_squares_view in P.
  rewrite (mem_Permutation i _ _ P).
  destruct (mem i (open_squares (view h b))) eqn:Em; simpl negb; cbv iota.
  - apply mem_In in Em. pose proof Em as Hi.
    rewrite open_squares_empties in Hi. apply empties_In in Hi.
    destruct Hi as (Hr & _). simpl in Hr. rewrite length_map in Hr.
    rewrite (deepcopy_fresh _ h [] Hnd (fun _ _ => eq_refl) Hall).
    rewrite (py_get_seq _ _ _ Hr).
    unfold Obj.setPlayer. rewrite set_nth_app.
    set (vals := map (Obj.getPlayer h) (Obj._board b)).
    set (t := set_nth vals (Z.to_nat i) (Obj._current_player b)).
    assert (Hlt : length t = length (Obj._board b)).
    { unfold t, vals. now rewrite set_nth_length, length_map. }
    exists (Ok (Obj.mkBoard (seq (length h) (length (Obj._board b)))
                            (Obj.oppositePlayer b))), (h ++ t), r'.
    split; [reflexivity|]. split; [|split; [|split]].
    + unfold view. f_equal. now apply map_getPlayer_app.
    + intros s Hs. now apply getPlayer_app.
    + intros _. eexists. split; [reflexivity|].
      unfold view, cell. simpl.
      rewrite <- Hlt, map_getPlayer_fresh. fold vals.
      split; [|split].
      * rewrite Hlt. unfold vals. now rewrite length_map.
      * intros k. unfold t. apply set_nth_nth.
        unfold vals. rewrite length_map. lia.
      * reflexivity.
    + intros Hn. contradiction.
  - exists (Raise ValueError), h, r'.
    split; [reflexivity|]. split; [reflexivity|]. split; [reflexivity|].
    split.
    + intros Hin. apply mem_In in Hin. congruence.
    + auto.
Qed.

Lemma obj_wf_initial : obj_wf initial_heap initial_obj.
Proof.
  split; simpl.
  - apply (seq_NoDup 9 0).
  - repeat constructor.
Qed.

Lemma view_initial : view initial_heap initial_obj = initial.
Proof. reflexivity. Qed.

Lemma getNewBoardWithMove_frame_witness :
  exists res h' r',
    Obj.getNewBoardWithMove sample_rev initial_heap initial_obj 4 tt
    = ((res, h'), r') /\
    view h' initial_obj = view initial_heap initial_obj /\
    (forall s, (s < length initial_heap)%nat ->
               Obj.getPlayer h' s = Obj.getPlayer initial_heap s) /\
    (In 4 (open_squares (view initial_heap initial_obj)) ->
     exists b',
       res = Ok b' /\
       length (_board (view h' b'))
       = length (_board (view initial_heap initial_obj)) /\
       (forall k, cell (view h' b') k
                  = if Nat.eqb k (Z.to_nat 4)
                    then _current_player (view initial_heap initial_obj)
                    else cell (view initial_heap initial_obj) k) /\
       _current_player (view h' b')
       = oppositePlayer (view initial_heap initial_obj)) /\
    (~ In 4 (open_squares (view initial_heap initial_obj)) ->
     res = Raise ValueError /\ h' = initial_heap).
Proof.
  apply (getNewBoardWithMove_frame sample_rev initial_heap initial_obj 4 tt
           sample_rev_perm obj_wf_initial).
Defined.

(** The object level refines the value level: on the views the two
    versions of [getNewBoardWithMove] return the same outcome, and the board
    object returned is again made of allocated, distinct squares. *)
Lemma obj_getNewBoardWithMove_refines {rng}
      (sample : list Z -> rng -> list Z * rng)
      (h : Obj.heap) (b : Obj.Board) (i : Z) (r : rng) :
  (forall l r, Permutation (fst (sample l r)) l) ->
  obj_wf h b ->
  exists res h' r',
    Obj.getNewBoardWithMove sample h b i r = ((res, h'), r') /\
    getNewBoardWithMove sample (view h b) i r
    = (match res with
       | Ok b' => Ok (view h' b')
       | Raise e => Raise e
       | Diverge => Diverge
       end, r') /\
    (forall b', res = Ok b' -> obj_wf h' b').
Proof.
  intros Hperm (Hnd & Hall).
  unfold Obj.getNewBoardWithMove, Obj.getLegalMoves, getNewBoardWithMove,
    getLegalMoves, bind.
  rewrite obj_open_squares_view.
  pose proof (Hperm (open_squares (view h b)) r) as P.
  destruct (sample (open_squares (view h b)) r) as [legal r'] eqn:Es.
  simpl in P. rewrite (mem_Permutation i _ _ P).
  destruct (mem i (open_squares (view h b))) eqn:Em; simpl negb; cbv iota.
  - apply mem_In in Em. rewrite open_squares_empties in Em.
    apply empties_In in Em. destruct Em as (Hr & _).
    pose proof Hr as Hr'. simpl in Hr'. rewrite length_map in Hr'.
    rewrite (deepcopy_fresh _ h [] Hnd (fun _ _ => eq_refl) Hall).
    rewrite (py_get_seq _ _ _ Hr').
    unfold Obj.setPlayer. rewrite set_nth_app.
    unfold lift, ret. rewrite (py_set_in_range _ _ _ Hr).
    set (t := set_nth (map (Obj.getPlayer h) (Obj._board b)) (Z.to_nat i)
                      (Obj._current_player b)).
    assert (Hlt : length t = length (Obj._board b)).
    { unfold t. now rewrite set_nth_length, length_map. }
    assert (Hv : view (h ++ t)
                      (Obj.mkBoard (seq (length h) (length (Obj._board b)))
                                   (Obj.oppositePlayer b))
                 = mkBoard t (oppositePlayer (view h b))).
    { unfold view. cbn [Obj._board Obj._current_player].
      rewrite <- Hlt, map_getPlayer_fresh. reflexivity. }
    do 3 eexists. split; [reflexivity|]. split.
    + cbv beta iota. rewrite Hv. reflexivity.
    + intros b' E. injection E as <-. split; simpl.
      * apply seq_NoDup.
      * rewrite Forall_forall. intros s Hs. apply in_seq in Hs.
        rewrite length_app. lia.
  - do 3 eexists. split; [reflexivity|]. split; [reflexivity|].
    intros b' E. discriminate.
Qed.

(** * Further properties of [Board.py] *)

Lemma empties_from_NoDup (s : Z) (sq : list Player) :
  NoDup (empties_from s sq).
Proof.
  revert s; induction sq as [|p rest IH]; intros s; simpl; [constructor|].
  destruct (Player_eqb p NONE); [|apply IH].
  constructor; [|apply IH].
  intros Hin. apply empties_from_In in Hin. lia.
Qed.

(** X1: [getLegalMoves] returns a list without repetitions whose elements
    are exactly the indices of the squares that hold [NONE], for a board of
    any number of squares. *)
Theorem getLegalMoves_exact {rng} (sample : list Z -> rng -> list Z * rng)
        (b : Board) (r : rng) :
  (forall l r, Permutation (fst (sample l r)) l) ->
  exists l r',
    getLegalMoves sample b r = (Ok l, r') /\
    NoDup l /\
    (forall m, In m l <->
               0 <= m < Z.of_nat (length (_board b)) /\
               py_get (_board b) m = Ok NONE).
Proof.
  intros Hperm.
  destruct (getLegalMoves_perm rng sample Hperm b r) as (l & r' & E & P).
  exists l, r'. split; [exact E|]. split.
  - apply (Permutation_NoDup (Permutation_sym P)). apply empties_from_NoDup.
  - intros m. split.
    + intros Hm. apply (Permutation_in _ P) in Hm. apply empties_In in Hm.
      destruct Hm as (Hr & Hc). split; [exact Hr|].
      rewrite (py_get_in_range _ _ NONE Hr). now f_equal.
    + intros (Hr & Hg). apply (Permutation_in _ (Permutation_sym P)).
      apply empties_In. split; [exact Hr|].
      rewrite (py_get_in_range _ _ NONE Hr) in Hg. now injection Hg.
Qed.

Lemma getLegalMoves_exact_witness :
  exists l r',
    getLegalMoves sample_rev mid_board tt = (Ok l, r') /\
    NoDup l /\
    (forall m, In m l <->
               0 <= m < Z.of_nat (length (_board mid_board)) /\
               py_get (_board mid_board) m = Ok NONE).
Proof.
  apply (getLegalMoves_exact sample_rev mid_board tt sample_rev_perm).
Defined.

Lemma empties_nil_iff (b : Board) :
  empties b = [] <->
  forall k, (k < length (_board b))%nat -> cell b k <> NONE.
Proof.
  split.
  - intros E k Hk Hc.
    assert (Hin : In (Z.of_nat k) (empties b)).
    { apply empties_In. rewrite Nat2Z.id. split; [lia|assumption]. }
    rewrite E in Hin. destruct Hin.
  - intros Hall. destruct (empties b) as [|m l] eqn:E; [reflexivity|].
    assert (Hin : In m (empties b)) by (rewrite E; now left).
    apply empties_In in Hin. destruct Hin as (Hr & Hc).
    exfalso. apply (Hall (Z.to_nat m)); [lia|assumption].
Qed.

(** X2: on a board of nine squares [isDraw] returns a boolean, whatever the
    state of the generator, and it returns true exactly when [isWin] is false
    and every one of the nine squares is occupied. *)
Theorem isDraw_iff_full {rng} (sample : list Z -> rng -> list Z * rng)
        (b : Board) (r : rng) :
  (forall l r, Permutation (fst (sample l r)) l) ->
  length (_board b) = 9%nat ->
  exists d r',
    isDraw sample b r = (Ok d, r') /\
    (d = true <->
     isWin b = Ok false /\ forall k, (k < 9)%nat -> cell b k <> NONE).
Proof.
  intros Hperm Hl.
  destruct (isDraw_spec rng sample Hperm b r Hl) as (r' & E).
  eexists. exists r'. split; [exact E|].
  rewrite (isWin_winb b Hl), <- Hl, <- empties_nil_iff.
  rewrite andb_true_iff, negb_true_iff, Nat.eqb_eq, length_zero_iff_nil.
  split.
  - intros (W & En). split; [now rewrite W|exact En].
  - intros (W & En). split; [congruence|exact En].
Qed.

Lemma isDraw_iff_full_witness :
  exists d r',
    isDraw sample_rev mid_board tt = (Ok d, r') /\
    (d = true <->
     isWin mid_board = Ok false /\
     forall k, (k < 9)%nat -> cell mid_board k <> NONE).
Proof.
  apply (isDraw_iff_full sample_rev mid_board tt sample_rev_perm).
  reflexivity.
Defined.

(** ** Turns and pieces *)

Lemma count_set_nth (q p : Player) (sq : list Player) (k : nat) :
  (k < length sq)%nat -> nth k sq NONE = NONE -> q <> NONE ->
  length (filter (Player_eqb q) (set_nth sq k p))
  = (length (filter (Player_eqb q) sq)
     + if Player_eqb q p then 1 else 0)%nat.
Proof.
  intros Hk Hn Hq. revert k Hk Hn.
  induction sq as [|a rest IH]; intros k Hk Hn; simpl in Hk; [lia|].
  destruct k as [|k]; simpl in Hn |- *.
  - subst a. apply Player_eqb_neq in Hq. rewrite Hq.
    destruct (Player_eqb q p); simpl; lia.
  - destruct (Player_eqb q a); simpl; rewrite IH; auto; lia.
Qed.

Lemma reachable_turns {rng} (sample : list Z -> rng -> list Z * rng)
      (n : nat) (b : Board) :
  (forall l r, Permutation (fst (sample l r)) l) ->
  reachable sample n b ->
  _current_player b = (if Nat.even n then X else O) /\
  (count_player X b + count_player O b = n)%nat /\
  count_player X b
  = (count_player O b + if Nat.even n then 0 else 1)%nat.
Proof.
  intros Hperm. induction 1 as [|n b sq r b' r' Hreach IH E].
  - repeat split.
  - destruct IH as (Hc & Hsum & Hdiff).
    destruct (reachable_inv rng sample Hperm n b Hreach) as ((Hl & Hcn) & _).
    destruct (in_dec Z.eq_dec sq (empties b)) as [Hin|Hout].
    + destruct (getNewBoardWithMove_legal rng sample Hperm b sq r Hin)
        as (r1 & E1).
      rewrite E1 in E. injection E as <- _.
      apply empties_In in Hin. destruct Hin as (Hr & Hcell).
      unfold count_player, place in *. simpl _board. simpl _current_player.
      rewrite !count_set_nth by (try discriminate; auto; lia).
      unfold oppositePlayer. rewrite Hc. rewrite Nat.even_succ, <- Nat.negb_even.
      destruct (Nat.even n); simpl; repeat split; lia.
    + destruct (getNewBoardWithMove_illegal rng sample Hperm b sq r Hout)
        as (r1 & E1).
      rewrite E1 in E. discriminate.
Qed.

(** X3: turns alternate.  On a board reached from [Board()] by [n]
    successful moves the player to move is [X] when [n] is even and [O] when
    [n] is odd. *)
Theorem turns_alternate {rng} (sample : list Z -> rng -> list Z * rng)
        (n : nat) (b : Board) :
  (forall l r, Permutation (fst (sample l r)) l) ->
  reachable sample n b ->
  getCurrentPlayer b = if Nat.even n then X else O.
Proof. intros Hperm Hr. apply (reachable_turns sample n b Hperm Hr). Qed.

Lemma turns_alternate_witness :
  getCurrentPlayer (place initial 4) = if Nat.even 1 then X else O.
Proof.
  apply (turns_alternate sample_rev 1 (place initial 4) sample_rev_perm).
  apply reachable_after_centre.
Defined.

(** X4: on a board reached from [Board()] by [n] successful moves, [X] and
    [O] hold [n] squares together, and [X] holds as many squares as [O] when
    [n] is even and one more when [n] is odd. *)
Theorem piece_counts {rng} (sample : list Z -> rng -> list Z * rng)
        (n : nat) (b : Board) :
  (forall l r, Permutation (fst (sample l r)) l) ->
  reachable sample n b ->
  (count_player X b + count_player O b = n)%nat /\
  count_player X b = (count_player O b + if Nat.even n then 0 else 1)%nat.
Proof. intros Hperm Hr. apply (reachable_turns sample n b Hperm Hr). Qed.

Lemma piece_counts_witness :
  (count_player X (place initial 4) + count_player O (place initial 4)
   = 1)%nat /\
  count_player X (place initial 4)
  = (count_player O (place initial 4) + if Nat.even 1 then 0 else 1)%nat.
Proof.
  apply (piece_counts sample_rev 1 (place initial 4) sample_rev_perm).
  apply reachable_after_centre.
Defined.

(** X5: a game has at most nine moves.  A board reached from [Board()] by
    [n] successful moves has [n <= 9], and after nine moves every further
    call of [getNewBoardWithMove] raises [ValueError]. *)
Theorem at_most_nine_moves {rng} (sample : list Z -> rng -> list Z * rng)
        (n : nat) (b : Board) :
  (forall l r, Permutation (fst (sample l r)) l) ->
  reachable sample n b ->
  (n <= 9)%nat /\
  (n = 9%nat ->
   forall i r, fst (getNewBoardWithMove sample b i r) = Raise ValueError).
Proof.
  intros Hperm Hr.
  destruct (reachable_inv rng sample Hperm n b Hr) as (_ & Hcount).
  split; [lia|]. intros -> i r.
  assert (En : empties b = []) by (apply length_zero_iff_nil; lia).
  destruct (getNewBoardWithMove_illegal rng sample Hperm b i r) as (r' & E).
  - rewrite En. intros [].
  - now rewrite E.
Qed.

Lemma reachable_full_board : reachable sample_id 9 full_board.
Proof.
  unfold full_board.
  repeat match goal with
         | |- reachable _ (S ?n) (place ?b ?k) =>
             apply (reach_move sample_id n b k tt (place b k) tt);
             [|reflexivity]
         end.
  apply reach_init.
Qed.

Lemma at_most_nine_moves_witness :
  (9 <= 9)%nat /\
  (9%nat = 9%nat ->
   forall i r,
     fst (getNewBoardWithMove sample_id full_board i r) = Raise ValueError).
Proof.
  apply (at_most_nine_moves sample_id 9 full_board sample_id_perm).
  apply reachable_full_board.
Defined.

(** * Further properties of the search *)

Lemma value_range (n : nat) :
  forall b mx p, -1 <= value n b mx p <= 1.
Proof.
  induction n as [|n IH]; intros b mx p; rewrite value_eq;
    destruct (winb b);
    try (destruct (Player_eqb (_current_player b) p); lia); try lia.
  set (vs := map (fun m => value n (place b m) (negb mx) p) (empties b)).
  assert (Hvs : forall v, In v vs -> -1 <= v <= 1).
  { intros v Hv. apply in_map_iff in Hv. destruct Hv as (m & <- & _).
    apply IH. }
  destruct vs as [|v rest] eqn:E; [lia|].
  destruct mx; cbv zeta.
  - destruct (max_of_spec (v :: rest)) as (m & Em & Hin & _); [discriminate|].
    rewrite Em. simpl. now apply Hvs.
  - destruct (min_of_spec (v :: rest)) as (m & Em & Hin & _); [discriminate|].
    rewrite Em. simpl. now apply Hvs.
Qed.

(** X6: on a board of nine squares with a player to move, [minimax] returns
    one of the integers -1, 0 and 1; the infinite start values of its two
    loops are never returned. *)
Theorem minimax_range {rng} (sample : list Z -> rng -> list Z * rng)
        (b : Board) (mx : bool) (p : Player) (fuel : nat) (r : rng) :
  (forall l r, Permutation (fst (sample l r)) l) ->
  wf b -> (length (open_squares b) < fuel)%nat ->
  exists v, fst (minimax sample fuel b mx p r) = Ok (Int v) /\
            (v = -1 \/ v = 0 \/ v = 1).
Proof.
  intros Hperm Hwf Hf. rewrite open_squares_empties in Hf.
  destruct (minimax_value rng sample Hperm fuel b mx p r Hwf Hf) as (r' & E).
  exists (value 9 b mx p). rewrite E. split; [reflexivity|].
  pose proof (value_range 9 b mx p). lia.
Qed.

Lemma minimax_range_witness :
  exists v, fst (minimax sample_rev 4 mid_board false O tt) = Ok (Int v) /\
            (v = -1 \/ v = 0 \/ v = 1).
Proof.
  apply (minimax_range sample_rev mid_board false O 4 tt sample_rev_perm
           wf_mid_board).
  vm_compute. lia.
Defined.

Lemma max_of_opp (l : list Z) :
  l <> [] -> unInt (max_of (map Z.opp l)) = - unInt (min_of l).
Proof.
  intros Hne.
  assert (Hne' : map Z.opp l <> []) by (destruct l; [congruence|discriminate]).
  destruct (max_of_spec _ Hne') as (m & E & Hin & Hall).
  destruct (min_of_spec _ Hne) as (m' & E' & Hin' & Hall').
  rewrite E, E'. simpl.
  apply in_map_iff in Hin. destruct Hin as (x & <- & Hx).
  specialize (Hall' x Hx).
  specialize (Hall (- m') (in_map Z.opp _ _ Hin')). lia.
Qed.

Lemma min_of_opp (l : list Z) :
  l <> [] -> unInt (min_of (map Z.opp l)) = - unInt (max_of l).
Proof.
  intros Hne.
  assert (Hne' : map Z.opp l <> []) by (destruct l; [congruence|discriminate]).
  destruct (min_of_spec _ Hne') as (m & E & Hin & Hall).
  destruct (max_of_spec _ Hne) as (m' & E' & Hin' & Hall').
  rewrite E, E'. simpl.
  apply in_map_iff in Hin. destruct Hin as (x & <- & Hx).
  specialize (Hall' x Hx).
  specialize (Hall (- m') (in_map Z.opp _ _ Hin')). lia.
Qed.

Lemma value_zero_sum (n : nat) :
  forall b mx p,
    _current_player b <> NONE -> p <> NONE ->
    value n b mx p = - value n b (negb mx) (other p).
Proof.
  induction n as [|n IH]; intros b mx p Hc Hp; rewrite !value_eq;
    destruct (winb b);
    try (destruct (_current_player b), p; simpl; congruence);
    try reflexivity.
  rewrite (map_ext_in
             (fun m => value n (place b m) (negb mx) p)
             (fun m => - value n (place b m) (negb (negb mx)) (other p))).
  2:{ intros m _. apply IH; [|assumption].
      simpl. unfold oppositePlayer. destruct (_current_player b); congruence. }
  rewrite <- (map_map (fun m => value n (place b m) (negb (negb mx)) (other p))
                      Z.opp).
  set (vs := map (fun m => value n (place b m) (negb (negb mx)) (other p))
                 (empties b)).
  destruct vs as [|v rest] eqn:E; [reflexivity|].
  assert (Hne : v :: rest <> []) by discriminate.
  destruct mx; cbn [negb map]; cbv zeta;
    change (- v :: map Z.opp rest) with (map Z.opp (v :: rest)).
  - now apply max_of_opp.
  - now apply min_of_opp.
Qed.

(** X7: the search is zero-sum.  On a board of nine squares, scoring for the
    opponent with the maximizing flag negated gives the negated value:
    [minimax(b, not mx, other p) = - minimax(b, mx, p)] for a player [p]. *)
Theorem minimax_zero_sum {rng} (sample : list Z -> rng -> list Z * rng)
        (b : Board) (mx : bool) (p : Player) (f1 f2 : nat) (r1 r2 : rng) :
  (forall l r, Permutation (fst (sample l r)) l) ->
  wf b -> p <> NONE ->
  (length (open_squares b) < f1)%nat -> (length (open_squares b) < f2)%nat ->
  exists v,
    fst (minimax sample f1 b mx p r1) = Ok (Int v) /\
    fst (minimax sample f2 b (negb mx) (other p) r2) = Ok (Int (- v)).
Proof.
  intros Hperm Hwf Hp H1 H2. rewrite open_squares_empties in H1, H2.
  destruct (minimax_value rng sample Hperm f1 b mx p r1 Hwf H1) as (r1' & E1).
  destruct (minimax_value rng sample Hperm f2 b (negb mx) (other p) r2 Hwf H2)
    as (r2' & E2).
  exists (value 9 b mx p). rewrite E1, E2. split; [reflexivity|].
  cbn [fst].
  rewrite (value_zero_sum 9 b mx p (proj2 Hwf) Hp), Z.opp_involutive.
  reflexivity.
Qed.

Lemma minimax_zero_sum_witness :
  exists v,
    fst (minimax sample_rev 4 mid_board true X tt) = Ok (Int v) /\
    fst (minimax sample_rev 4 mid_board (negb true) (other X) tt)
    = Ok (Int (- v)).
Proof.
  apply (minimax_zero_sum sample_rev mid_board true X 4 4 tt tt
           sample_rev_perm wf_mid_board); try discriminate; vm_compute; lia.
Defined.

(** ** The move chosen by [findBestMove] *)

Lemma best_score (g : Z -> Z) (l : list Z) (c : Z) :
  In c l -> (forall x, In x l -> g x <= g c) ->
  unInt (max_of (map g l)) = g c.
Proof.
  intros Hc Hall.
  assert (Hne : map g l <> []) by (destruct l; [destruct Hc|discriminate]).
  destruct (max_of_spec _ Hne) as (v & E & Hin & Hmax).
  rewrite E. simpl. apply in_map_iff in Hin. destruct Hin as (x & <- & Hx).
  specialize (Hall x Hx). specialize (Hmax (g c) (in_map g _ _ Hc)). lia.
Qed.

Lemma findBestMove_result {rng} (sample : list Z -> rng -> list Z * rng)
      (b : Board) (fuel : nat) (r : rng) :
  (forall l r, Permutation (fst (sample l r)) l) ->
  wf b -> (length (empties b) <= fuel)%nat ->
  (empties b = [] /\
   exists r', findBestMove sample fuel b r = (Ok None, r')) \/
  (exists m r',
     findBestMove sample fuel b r = (Ok (Some m), r') /\
     In m (empties b) /\
     forall x, In x (empties b) -> score b x <= score b m).
Proof.
  intros Hperm Hwf Hf.
  destruct (getLegalMoves_perm rng sample Hperm b r) as (order & r1 & E & P).
  destruct (findBestMove_pick rng sample Hperm fuel b r order r1 Hwf Hf E)
    as (r' & Ef).
  destruct order as [|o rest].
  - left. apply Permutation_nil in P. split; [exact P|].
    exists r'. exact Ef.
  - right.
    destruct (pick_spec (score b) (o :: rest)) as (pre & m & post & Hp & Ho & _ & Hall);
      [discriminate|].
    rewrite Hp in Ef. exists m, r'. split; [exact Ef|]. split.
    + apply (Permutation_in _ P). rewrite Ho.
      apply in_or_app. right. now left.
    + intros x Hx. apply Hall.
      apply (Permutation_in _ (Permutation_sym P)), Hx.
Qed.

(** X8: on a board of nine squares with a player to move, [findBestMove]
    returns a result without raising; the result is [None] exactly when the
    board has no legal move, and otherwise it is a legal move, which
    [getNewBoardWithMove] accepts. *)
Theorem findBestMove_none_iff {rng} (sample : list Z -> rng -> list Z * rng)
        (b : Board) (fuel : nat) (r : rng) :
  (forall l r, Permutation (fst (sample l r)) l) ->
  wf b -> (length (open_squares b) <= fuel)%nat ->
  exists res r',
    findBestMove sample fuel b r = (Ok res, r') /\
    (res = None <-> open_squares b = []) /\
    (forall m, res = Some m ->
       In m (open_squares b) /\
       forall r0, exists b' r0',
         getNewBoardWithMove sample b m r0 = (Ok b', r0')).
Proof.
  intros Hperm Hwf Hf. rewrite open_squares_empties in *.
  destruct (findBestMove_result sample b fuel r Hperm Hwf Hf)
    as [(En & r' & E)|(m & r' & E & Hm & _)].
  - exists None, r'. split; [exact E|]. split; [tauto|]. discriminate.
  - exists (Some m), r'. split; [exact E|]. split.
    + split; [discriminate|]. intros En. rewrite En in Hm. destruct Hm.
    + intros m' Em. injection Em as <-. split; [exact Hm|].
      intros r0.
      destruct (getNewBoardWithMove_legal rng sample Hperm b m r0 Hm)
        as (r0' & E0).
      eauto.
Qed.

Lemma findBestMove_none_iff_witness :
  exists res r',
    findBestMove sample_rev 3 mid_board tt = (Ok res, r') /\
    (res = None <-> open_squares mid_board = []) /\
    (forall m, res = Some m ->
       In m (open_squares mid_board) /\
       forall r0, exists b' r0',
         getNewBoardWithMove sample_rev mid_board m r0 = (Ok b', r0')).
Proof.
  apply (findBestMove_none_iff sample_rev mid_board 3 tt sample_rev_perm
           wf_mid_board).
  vm_compute. lia.
Defined.

(** X9: on a board of nine squares that is not won and has a legal move,
    the move [findBestMove] returns attains the value of the position: what
    [minimax] returns on the board after that move, not maximizing, is what
    [minimax] returns on the board itself, maximizing, for the player to
    move. *)
Theorem findBestMove_attains_value {rng}
        (sample : list Z -> rng -> list Z * rng)
        (b : Board) (fuel f1 : nat) (r r1 r2 : rng) :
  (forall l r, Permutation (fst (sample l r)) l) ->
  wf b -> (length (open_squares b) <= fuel)%nat ->
  (length (open_squares b) < f1)%nat ->
  isWin b = Ok false -> open_squares b <> [] ->
  exists m r' b' r1' v,
    findBestMove sample fuel b r = (Ok (Some m), r') /\
    getNewBoardWithMove sample b m r1 = (Ok b', r1') /\
    fst (minimax sample fuel b' false (getCurrentPlayer b) r1') = Ok (Int v) /\
    fst (minimax sample f1 b true (getCurrentPlayer b) r2) = Ok (Int v).
Proof.
  intros Hperm Hwf Hf Hf1 Hw Hne. rewrite open_squares_empties in *.
  pose proof Hwf as (Hl & Hc).
  rewrite (isWin_winb b Hl) in Hw. injection Hw as Hw.
  destruct (findBestMove_result sample b fuel r Hperm Hwf Hf)
    as [(En & _)|(m & r' & E & Hm & Hall)]; [congruence|].
  destruct (getNewBoardWithMove_legal rng sample Hperm b m r1 Hm)
    as (r1' & E1).
  assert (Hfc : (length (empties (place b m)) < fuel)%nat).
  { pose proof (empties_place b m Hc Hm). lia. }
  destruct (minimax_value rng sample Hperm fuel (place b m) false
              (getCurrentPlayer b) r1' (wf_place b m Hwf) Hfc) as (r3 & E3).
  destruct (minimax_value rng sample Hperm f1 b true (getCurrentPlayer b) r2
              Hwf Hf1) as (r4 & E4).
  exists m, r', (place b m), r1', (score b m).
  split; [exact E|]. split; [exact E1|]. split.
  - rewrite E3. reflexivity.
  - rewrite E4. cbn [fst]. do 2 apply f_equal.
    pose proof (value_children b true (getCurrentPlayer b) Hwf Hw Hne) as Hv.
    cbv zeta in Hv. cbn [negb] in Hv.
    change (map (fun m0 => value 9 (place b m0) false (getCurrentPlayer b))
                (empties b))
      with (map (score b) (empties b)) in Hv.
    rewrite <- (best_score (score b) (empties b) m Hm Hall).
    now rewrite <- Hv.
Qed.

Lemma findBestMove_attains_value_witness :
  exists m r' b' r1' v,
    findBestMove sample_rev 3 mid_board tt = (Ok (Some m), r') /\
    getNewBoardWithMove sample_rev mid_board m tt = (Ok b', r1') /\
    fst (minimax sample_rev 3 b' false (getCurrentPlayer mid_board) r1')
    = Ok (Int v) /\
    fst (minimax sample_rev 4 mid_board true (getCurrentPlayer mid_board) tt)
    = Ok (Int v).
Proof.
  apply (findBestMove_attains_value sample_rev mid_board 3 4 tt tt tt
           sample_rev_perm wf_mid_board).
  - vm_compute. lia.
  - vm_compute. lia.
  - reflexivity.
  - discriminate.
Defined.

(** ** Moves after a win, and a board without a player to move *)

Lemma lineb_place (sq : list Player) (k : nat) (p : Player) (w : Z * Z * Z) :
  (k < length sq)%nat -> nth k sq NONE = NONE ->
  lineb sq w = true -> lineb (set_nth sq k p) w = true.
Proof.
  destruct w as [[w0 w1] w2]. intros Hk Hn. unfold lineb, line.
  rewrite !andb_true_iff, negb_true_iff, !Player_eqb_eq, Player_eqb_neq.
  intros ((E1 & E2) & Hc).
  assert (H2 : Z.to_nat w2 <> k) by (intros <-; contradiction).
  assert (H1 : Z.to_nat w1 <> k) by (intros <-; congruence).
  assert (H0 : Z.to_nat w0 <> k) by (intros <-; congruence).
  rewrite !(set_nth_nth sq k _ p NONE Hk).
  apply Nat.eqb_neq in H0, H1, H2. rewrite H0, H1, H2.
  split; [split; assumption|].
  apply negb_true_iff, Player_eqb_neq. exact Hc.
Qed.

(** X10: a win is permanent.  [getNewBoardWithMove] does not look at
    [isWin]; if [isWin] is true on a board of nine squares and a further move
    is accepted, [isWin] is true on the board returned. *)
Theorem win_is_permanent {rng} (sample : list Z -> rng -> list Z * rng)
        (b : Board) (i : Z) (r : rng) (b' : Board) (r' : rng) :
  (forall l r, Permutation (fst (sample l r)) l) ->
  length (_board b) = 9%nat ->
  isWin b = Ok true ->
  getNewBoardWithMove sample b i r = (Ok b', r') ->
  isWin b' = Ok true.
Proof.
  intros Hperm Hl Hw E.
  destruct (in_dec Z.eq_dec i (empties b)) as [Hin|Hout].
  2:{ destruct (getNewBoardWithMove_illegal rng sample Hperm b i r Hout)
        as (r1 & E1). rewrite E1 in E. discriminate. }
  destruct (getNewBoardWithMove_legal rng sample Hperm b i r Hin) as (r1 & E1).
  rewrite E1 in E. injection E as <- _.
  apply empties_In in Hin. destruct Hin as (Hr & Hc).
  unfold isWin in *. simpl _board.
  pose proof wins_in_range as Hrange.
  rewrite isWin_loop_existsb in Hw by (rewrite Hl; exact Hrange).
  rewrite isWin_loop_existsb
    by (rewrite set_nth_length, Hl; exact Hrange).
  apply f_equal.
  assert (Hw' : existsb (lineb (_board b)) wins = true) by congruence.
  apply existsb_exists in Hw'. destruct Hw' as (w & Hin & Hline).
  apply existsb_exists. exists w. split; [exact Hin|].
  apply lineb_place; [lia|exact Hc|exact Hline].
Qed.

Lemma win_is_permanent_witness :
  isWin (place won_board 5) = Ok true.
Proof.
  apply (win_is_permanent sample_rev won_board 5 tt (place won_board 5) tt
           sample_rev_perm); reflexivity.
Defined.

Lemma set_nth_same {A} (l : list A) (k : nat) (d : A) :
  set_nth l k (nth k l d) = l.
Proof.
  revert k; induction l as [|a l IH]; intros [|k]; simpl; auto.
  now rewrite IH.
Qed.

Lemma place_no_mover (b : Board) (m : Z) :
  _current_player b = NONE -> In m (empties b) -> place b m = b.
Proof.
  intros Hc Hm. apply empties_In in Hm. destruct Hm as (_ & Hcell).
  unfold cell in Hcell. destruct b as [sq c]. simpl in *. subst c.
  unfold place, oppositePlayer. simpl. f_equal.
  pose proof (set_nth_same sq (Z.to_nat m) NONE) as H.
  rewrite Hcell in H. exact H.
Qed.

Lemma bind_Diverge {rng A B} (m : M rng A) (k : A -> M rng B) r r' :
  m r = (Diverge, r') -> bind m k r = (Diverge, r').
Proof. intros E. unfold bind. now rewrite E. Qed.

Lemma isDraw_not_won {rng} (sample : list Z -> rng -> list Z * rng)
      (b : Board) (r : rng) :
  (forall l r, Permutation (fst (sample l r)) l) ->
  isWin b = Ok false ->
  exists r', isDraw sample b r = (Ok (Nat.eqb (length (empties b)) 0), r').
Proof.
  intros Hperm Hw. unfold isDraw, bind at 1, lift. rewrite Hw. cbn [negb].
  destruct (getLegalMoves_perm rng sample Hperm b r) as (l & r' & E & P).
  rewrite (bind_Ok _ _ _ _ _ E). unfold ret.
  rewrite (Permutation_length P). now exists r'.
Qed.

Lemma minimax_no_mover {rng} (sample : list Z -> rng -> list Z * rng)
      (b : Board) (p : Player) :
  (forall l r, Permutation (fst (sample l r)) l) ->
  _current_player b = NONE -> isWin b = Ok false -> empties b <> [] ->
  forall fuel mx r, fst (minimax sample fuel b mx p r) = Diverge.
Proof.
  intros Hperm Hc Hw Hne.
  assert (Hl0 : Nat.eqb (length (empties b)) 0 = false).
  { apply Nat.eqb_neq. intros E. apply length_zero_iff_nil in E.
    contradiction. }
  assert (Hloop : forall fuel,
            (forall mx r, fst (minimax sample fuel b mx p r) = Diverge) ->
            forall mx r, fst (minimax sample (S fuel) b mx p r) = Diverge).
  { intros fuel IH mx r. cbn [minimax].
    unfold bind at 1, lift. rewrite Hw.
    destruct (isDraw_not_won sample b r Hperm Hw) as (r0 & E0).
    rewrite (bind_Ok _ _ _ _ _ E0), Hl0.
    destruct (getLegalMoves_perm rng sample Hperm b r0) as (l & r1 & E1 & P).
    assert (Hl : exists x rest, l = x :: rest /\ In x (empties b)).
    { destruct l as [|x rest].
      - apply Permutation_nil in P. contradiction.
      - exists x, rest. split; [reflexivity|].
        apply (Permutation_in _ P). now left. }
    destruct Hl as (x & rest & -> & Hx).
    destruct (getNewBoardWithMove_legal rng sample Hperm b x r1 Hx)
      as (r2 & E2).
    rewrite (place_no_mover b x Hc Hx) in E2.
    destruct mx; rewrite (bind_Ok _ _ _ _ _ E1); cbn [for_each];
      unfold bind at 1; rewrite (bind_Ok _ _ _ _ _ E2).
    - specialize (IH false r2).
      destruct (minimax sample fuel b false p r2) as [res r3] eqn:Em.
      simpl in IH. subst res.
      rewrite (bind_Diverge _ _ _ _ Em). reflexivity.
    - specialize (IH true r2).
      destruct (minimax sample fuel b true p r2) as [res r3] eqn:Em.
      simpl in IH. subst res.
      rewrite (bind_Diverge _ _ _ _ Em). reflexivity. }
  induction fuel as [|fuel IH]; [reflexivity|].
  now apply Hloop.
Qed.

(** X11: a board on which nobody is to move, which the constructor accepts,
    is returned unchanged by every accepted move; so on such a board that is
    not won and has an empty square, [minimax] recurses without end, at every
    recursion depth allowed. *)
Theorem no_mover_never_ends {rng} (sample : list Z -> rng -> list Z * rng)
        (b : Board) :
  (forall l r, Permutation (fst (sample l r)) l) ->
  _current_player b = NONE ->
  (forall i r b' r',
     getNewBoardWithMove sample b i r = (Ok b', r') -> b' = b) /\
  (isWin b = Ok false -> open_squares b <> [] ->
   forall fuel mx p r, fst (minimax sample fuel b mx p r) = Diverge).
Proof.
  intros Hperm Hc. split.
  - intros i r b' r' E.
    destruct (in_dec Z.eq_dec i (empties b)) as [Hin|Hout].
    + destruct (getNewBoardWithMove_legal rng sample Hperm b i r Hin)
        as (r1 & E1).
      rewrite E1 in E. injection E as <- _. now apply place_no_mover.
    + destruct (getNewBoardWithMove_illegal rng sample Hperm b i r Hout)
        as (r1 & E1).
      rewrite E1 in E. discriminate.
  - intros Hw Hne fuel mx p r. rewrite open_squares_empties in Hne.
    now apply minimax_no_mover.
Qed.

Lemma no_mover_never_ends_witness :
  (forall i r b' r',
     getNewBoardWithMove sample_rev no_mover_board i r = (Ok b', r') ->
     b' = no_mover_board) /\
  (isWin no_mover_board = Ok false -> open_squares no_mover_board <> [] ->
   forall fuel mx p r,
     fst (minimax sample_rev fuel no_mover_board mx p r) = Diverge).
Proof.
  apply (no_mover_never_ends sample_rev no_mover_board sample_rev_perm).
  reflexivity.
Defined.

(** * Properties of the interactive game *)

Lemma first_legal_split (b : Board) (inputs : list (option Z)) :
  forall pre z rest,
    inputs = pre ++ Some z :: rest ->
    In z (open_squares b) ->
    (forall z', In (Some z') pre -> ~ In z' (open_squares b)) ->
    first_legal b inputs = Some (z, rest).
Proof.
  intros pre; revert inputs; induction pre as [|a pre IH];
    intros inputs z rest -> Hz Hpre; simpl.
  - apply mem_In in Hz. now rewrite Hz.
  - destruct a as [z'|].
    + destruct (mem z' (open_squares b)) eqn:E.
      * apply mem_In in E. exfalso. apply (Hpre z'); [now left|exact E].
      * apply IH; auto. intros z0 Hz0. apply Hpre. now right.
    + apply IH; auto. intros z0 Hz0. apply Hpre. now right.
Qed.

Lemma first_legal_none (b : Board) (inputs : list (option Z)) :
  (forall z, In (Some z) inputs -> ~ In z (open_squares b)) ->
  first_legal b inputs = None.
Proof.
  induction inputs as [|a rest IH]; intros Hall; simpl; [reflexivity|].
  destruct a as [z|].
  - destruct (mem z (open_squares b)) eqn:E.
    + apply mem_In in E. exfalso. apply (Hall z); [now left|exact E].
    + apply IH. intros z0 Hz0. apply Hall. now right.
  - apply IH. intros z0 Hz0. apply Hall. now right.
Qed.

Lemma first_legal_legal (b : Board) (inputs : list (option Z)) z rest :
  first_legal b inputs = Some (z, rest) -> In z (open_squares b).
Proof.
  induction inputs as [|a inputs IH]; simpl; [discriminate|].
  destruct a as [z'|]; [|exact IH].
  destruct (mem z' (open_squares b)) eqn:E; [|exact IH].
  intros H. injection H as <- _. now apply mem_In.
Qed.

Lemma unbeaten_human (n : nat) (b : Board) (h : Z) :
  unbeaten (S n) b = true -> In h (empties b) ->
  winb (place b h) = false /\
  (empties (place b h) = [] \/
   forall c, In c (empties (place b h)) ->
     (forall x, In x (empties (place b h)) ->
                score (place b h) x <= score (place b h) c) ->
     winb (place (place b h) c) = true \/
     empties (place (place b h) c) = [] \/
     unbeaten n (place (place b h) c) = true).
Proof.
  intros Hu Hh. cbn [unbeaten] in Hu. rewrite forallb_forall in Hu.
  specialize (Hu h Hh). cbv zeta in Hu.
  destruct (winb (place b h)); [discriminate|]. split; [reflexivity|].
  destruct (empties (place b h)) as [|z l] eqn:E1; [now left|right].
  intros c Hc Hall. rewrite forallb_forall in Hu. specialize (Hu c Hc).
  rewrite (best_score (score (place b h)) (z :: l) c Hc Hall) in Hu.
  rewrite Z.eqb_refl in Hu. cbn [negb orb] in Hu.
  apply orb_true_iff in Hu. destruct Hu as [Hu|Hu]; [now left|right].
  destruct (empties (place (place b h) c)); [now left|now right].
Qed.

Lemma unbeaten_initial : unbeaten 5 initial = true.
Proof. vm_compute. reflexivity. Qed.

Section Interactive.

Variable rng : Type.
Variable sample : list Z -> rng -> list Z * rng.
Hypothesis sample_perm : forall l r, Permutation (fst (sample l r)) l.

Lemma getLegalMoves_open (b : Board) (r : rng) :
  exists l r', getLegalMoves sample b r = (Ok l, r') /\
               forall z, mem z l = mem z (open_squares b).
Proof.
  destruct (getLegalMoves_perm rng sample sample_perm b r) as (l & r' & E & P).
  exists l, r'. split; [exact E|]. intros z.
  rewrite open_squares_empties. now apply mem_Permutation.
Qed.

Lemma getPlayerMove_loop_spec (b : Board) (inputs : list (option Z)) :
  forall pm r,
    exists r',
      getPlayerMove_loop sample b pm inputs r
      = (match pm with
         | Some z =>
             if mem z (open_squares b) then Ok (z, inputs)
             else loop_result b inputs
         | None => loop_result b inputs
         end, r').
Proof.
  unfold loop_result.
  induction inputs as [|a rest IH]; intros pm r;
    cbn [getPlayerMove_loop first_legal];
    destruct (getLegalMoves_open b r) as (l & r1 & E & Hmem);
    rewrite (bind_Ok _ _ _ _ _ E).
  - destruct pm as [z|]; [rewrite Hmem|];
      [destruct (mem z (open_squares b))|]; now exists r1.
  - destruct pm as [z|];
      [rewrite Hmem; destruct (mem z (open_squares b)) eqn:Ez;
       [now exists r1|]|];
      destruct a as [z'|].
    + destruct (IH (Some z') r1) as (r' & E'). exists r'. rewrite E'.
      destruct (mem z' (open_squares b)); reflexivity.
    + destruct (IH (Some z) r1) as (r' & E'). exists r'. rewrite E', Ez.
      reflexivity.
    + destruct (IH (Some z') r1) as (r' & E'). exists r'. rewrite E'.
      destruct (mem z' (open_squares b)); reflexivity.
    + destruct (IH None r1) as (r' & E'). exists r'. rewrite E'.
      reflexivity.
Qed.

Lemma getPlayerMove_spec (b : Board) (inputs : list (option Z)) (r : rng) :
  exists r', getPlayerMove sample b inputs r = (loop_result b inputs, r').
Proof. apply (getPlayerMove_loop_spec b inputs None r). Qed.

(** X12: [getPlayerMove] returns the first line of the input that is an
    integer and a legal move of the board, together with the input after it;
    lines that do not parse and numbers that are not legal moves are skipped.
    When no line of the input is a legal move it never returns. *)
Theorem getPlayerMove_first_legal (b : Board) (inputs : list (option Z))
        (r : rng) :
  (forall pre z rest,
     inputs = pre ++ Some z :: rest ->
     In z (open_squares b) ->
     (forall z', In (Some z') pre -> ~ In z' (open_squares b)) ->
     exists r', getPlayerMove sample b inputs r = (Ok (z, rest), r')) /\
  ((forall z, In (Some z) inputs -> ~ In z (open_squares b)) ->
   exists r', getPlayerMove sample b inputs r = (Diverge, r')).
Proof.
  destruct (getPlayerMove_spec b inputs r) as (r' & E).
  unfold loop_result in E. split.
  - intros pre z rest Hi Hz Hpre.
    rewrite (first_legal_split b inputs pre z rest Hi Hz Hpre) in E.
    now exists r'.
  - intros Hall. rewrite (first_legal_none b inputs Hall) in E.
    now exists r'.
Qed.

(** ** The game against the computer *)

Lemma checkForEnd_report_spec (b : Board) (name : String.string) (r : rng) :
  length (_board b) = 9%nat ->
  exists r',
    checkForEnd_report sample b name r
    = (Ok (if winb b then Some (String.append name " wins!"%string)
           else if Nat.eqb (length (empties b)) 0
                then Some "It's a draw!"%string
                else None), r').
Proof.
  intros Hl. unfold checkForEnd_report, bind at 1, lift.
  rewrite (isWin_winb b Hl).
  destruct (winb b) eqn:W.
  - now exists r.
  - destruct (isDraw_spec rng sample sample_perm b r Hl) as (r1 & E1).
    rewrite (bind_Ok _ _ _ _ _ E1), W. cbn [negb andb].
    exists r1. now destruct (Nat.eqb (length (empties b)) 0).
Qed.

Lemma play_loop_safe (fuel : nat) :
  (8 <= fuel)%nat ->
  forall rounds n b inputs r,
    wf b -> _current_player b = X -> unbeaten n b = true ->
    human_not_winner (fst (play_loop sample rounds fuel b inputs r)).
Proof.
  intros Hfuel.
  induction rounds as [|k IH]; intros n b inputs r Hwf Hc Hu; [exact I|].
  cbn [play_loop].
  destruct (getPlayerMove_spec b inputs r) as (r1 & E1).
  unfold loop_result in E1.
  destruct (first_legal b inputs) as [[h rest]|] eqn:Ef.
  2:{ rewrite (bind_Diverge _ _ _ _ E1). exact I. }
  rewrite (bind_Ok _ _ _ _ _ E1). cbn [fst snd].
  apply first_legal_legal in Ef. rewrite open_squares_empties in Ef.
  destruct n as [|n].
  { simpl in Hu. destruct (empties b); [destruct Ef|discriminate]. }
  destruct (unbeaten_human n b h Hu Ef) as (W1 & Hnext).
  destruct (getNewBoardWithMove_legal rng sample sample_perm b h r1 Ef)
    as (r2 & E2).
  rewrite (bind_Ok _ _ _ _ _ E2).
  pose proof (wf_place b h Hwf) as Hwf1.
  pose proof (empties_place b h (proj2 Hwf) Ef) as Hlen1.
  pose proof (wf_empties_bound b Hwf) as Hb.
  set (b1 := place b h) in *.
  destruct (checkForEnd_report_spec b1 "Human"%string r2 (proj1 Hwf1))
    as (r3 & E3).
  rewrite (bind_Ok _ _ _ _ _ E3), W1.
  destruct (Nat.eqb (length (empties b1)) 0) eqn:En1.
  { apply Nat.eqb_eq, length_zero_iff_nil in En1. right.
    split; [reflexivity|]. split.
    - now rewrite (isWin_winb b1 (proj1 Hwf1)), W1.
    - now rewrite open_squares_empties. }
  apply Nat.eqb_neq in En1.
  destruct Hnext as [Hnil|Hnext]; [rewrite Hnil in En1; simpl in En1; lia|].
  assert (Hf1 : (length (empties b1) <= fuel)%nat) by lia.
  destruct (findBestMove_result sample b1 fuel r3 sample_perm Hwf1 Hf1)
    as [(Hnil & _)|(c & r4 & E4 & Hcin & Hall)];
    [rewrite Hnil in En1; simpl in En1; lia|].
  rewrite (bind_Ok _ _ _ _ _ E4).
  destruct (getNewBoardWithMove_legal rng sample sample_perm b1 c r4 Hcin)
    as (r5 & E5).
  rewrite (bind_Ok _ _ _ _ _ E5).
  pose proof (wf_place b1 c Hwf1) as Hwf2.
  specialize (Hnext c Hcin Hall).
  assert (Hc2 : _current_player (place b1 c) = X).
  { unfold b1. simpl. unfold oppositePlayer. simpl.
    unfold oppositePlayer. now rewrite Hc. }
  set (b2 := place b1 c) in *.
  destruct (checkForEnd_report_spec b2 "Computer"%string r5 (proj1 Hwf2))
    as (r6 & E6).
  rewrite (bind_Ok _ _ _ _ _ E6).
  destruct (winb b2) eqn:W2.
  { left. split; [reflexivity|]. split; [|exact Hc2].
    now rewrite (isWin_winb b2 (proj1 Hwf2)), W2. }
  destruct (Nat.eqb (length (empties b2)) 0) eqn:En2.
  { apply Nat.eqb_eq, length_zero_iff_nil in En2. right.
    split; [reflexivity|]. split.
    - now rewrite (isWin_winb b2 (proj1 Hwf2)), W2.
    - now rewrite open_squares_empties. }
  apply Nat.eqb_neq in En2.
  destruct Hnext as [Hw|[Hnil|Hu2]];
    [discriminate|rewrite Hnil in En2; simpl in En2; lia|].
  apply (IH n b2 rest r6 Hwf2 Hc2 Hu2).
Qed.

(** X13: the computer is never beaten.  Whatever the human types and
    whatever orders the enumeration of the legal moves produces, [play]
    never raises an error, and when it ends the last [checkForEnd] has
    printed either that the computer wins, on a board where [isWin] holds
    after a move of the computer, or that the game is a draw, on a board
    without a win and without an empty square. *)
Theorem play_computer_unbeaten (rounds fuel : nat)
        (inputs : list (option Z)) (r : rng) :
  (8 <= fuel)%nat ->
  human_not_winner (fst (play sample rounds fuel inputs r)).
Proof.
  intros Hfuel. unfold play.
  apply (play_loop_safe fuel Hfuel rounds 5 initial inputs r wf_initial
           eq_refl unbeaten_initial).
Qed.

End Interactive.

Lemma getPlayerMove_first_legal_witness :
  (forall pre z rest,
     [None; Some 4; Some 9; Some 6; Some 5] = pre ++ Some z :: rest ->
     In z (open_squares mid_board) ->
     (forall z', In (Some z') pre -> ~ In z' (open_squares mid_board)) ->
     exists r',
       getPlayerMove sample_rev mid_board
                     [None; Some 4; Some 9; Some 6; Some 5] tt
       = (Ok (z, rest), r')) /\
  ((forall z, In (Some z) [None; Some 4; Some 9; Some 6; Some 5] ->
              ~ In z (open_squares mid_board)) ->
   exists r',
     getPlayerMove sample_rev mid_board
                   [None; Some 4; Some 9; Some 6; Some 5] tt
     = (Diverge, r')).
Proof.
  apply (getPlayerMove_first_legal unit sample_rev sample_rev_perm mid_board
           [None; Some 4; Some 9; Some 6; Some 5] tt).
Defined.

Lemma play_computer_unbeaten_witness :
  human_not_winner
    (fst (play sample_rev 5 8
               [Some 4; None; Some 4; Some 0; Some 2; Some 7; Some 3; Some 5]
               tt)).
Proof.
  apply (play_computer_unbeaten unit sample_rev sample_rev_perm 5 8
           [Some 4; None; Some 4; Some 0; Some 2; Some 7; Some 3; Some 5] tt).
  lia.
Defined.

(** ** When the game ends *)

Lemma offers_skip (k : nat) (junk inputs : list (option Z)) :
  offers k inputs -> offers k (junk ++ inputs).
Proof.
  destruct k as [|k]; [trivial|].
  intros (blk & rest & -> & Hall & Hrest).
  exists (junk ++ blk), rest. split; [now rewrite app_assoc|].
  split; [|exact Hrest].
  intros z Hz. apply in_or_app. right. now apply Hall.
Qed.

Lemma first_legal_app (b : Board) (blk rest : list (option Z)) :
  (exists z, In (Some z) blk /\ In z (open_squares b)) ->
  exists h t, first_legal b (blk ++ rest) = Some (h, t ++ rest).
Proof.
  induction blk as [|a blk IH]; intros (z & Hin & Hz); [destruct Hin|].
  simpl. destruct a as [z'|].
  - destruct (mem z' (open_squares b)) eqn:E.
    + now exists z', blk.
    + apply IH. exists z. split; [|exact Hz].
      destruct Hin as [Heq|Hin]; [|exact Hin].
      injection Heq as ->. apply mem_In in Hz. congruence.
  - apply IH. exists z. split; [|exact Hz].
    destruct Hin as [Heq|Hin]; [discriminate|exact Hin].
Qed.

Lemma first_legal_offers (k : nat) (b : Board) (inputs : list (option Z)) :
  length (_board b) = 9%nat -> empties b <> [] ->
  offers (S k) inputs ->
  exists h rest, first_legal b inputs = Some (h, rest) /\ offers k rest.
Proof.
  intros Hl Hne (blk & rest & -> & Hall & Hrest).
  destruct (empties b) as [|z l] eqn:E; [congruence|].
  assert (Hz : In z (empties b)) by (rewrite E; now left).
  pose proof Hz as Hz'. apply empties_In in Hz'. rewrite Hl in Hz'.
  destruct (first_legal_app b blk rest) as (h & t & Ef).
  - exists z. split; [apply Hall; lia|].
    now rewrite open_squares_empties.
  - exists h, (t ++ rest). split; [exact Ef|]. now apply offers_skip.
Qed.

Lemma offers_digits : offers 5 (digits ++ digits ++ digits ++ digits ++ digits).
Proof.
  assert (Hd : forall z, 0 <= z <= 8 -> In (Some z) digits).
  { intros z Hz. unfold digits.
    assert (z = 0 \/ z = 1 \/ z = 2 \/ z = 3 \/ z = 4 \/ z = 5 \/ z = 6 \/
            z = 7 \/ z = 8) as Hc by lia.
    simpl. repeat (destruct Hc as [->|Hc]; [tauto|]). subst. tauto. }
  exists digits, (digits ++ digits ++ digits ++ digits).
  split; [reflexivity|]. split; [exact Hd|].
  exists digits, (digits ++ digits ++ digits).
  split; [reflexivity|]. split; [exact Hd|].
  exists digits, (digits ++ digits).
  split; [reflexivity|]. split; [exact Hd|].
  exists digits, digits.
  split; [reflexivity|]. split; [exact Hd|].
  exists digits, []. split; [now rewrite app_nil_r|]. split; [exact Hd|].
  exact I.
Qed.

Section GameEnds.

Variable rng : Type.
Variable sample : list Z -> rng -> list Z * rng.
Hypothesis sample_perm : forall l r, Permutation (fst (sample l r)) l.

Lemma play_loop_ends (fuel : nat) :
  (8 <= fuel)%nat ->
  forall n rounds b inputs r,
    wf b -> _current_player b = X -> unbeaten n b = true ->
    empties b <> [] -> (n <= rounds)%nat -> offers n inputs ->
    exists out r', play_loop sample rounds fuel b inputs r = (Ok out, r').
Proof.
  intros Hfuel.
  induction n as [|n IH]; intros rounds b inputs r Hwf Hc Hu Hne Hr Hoff.
  { simpl in Hu. destruct (empties b); [congruence|discriminate]. }
  destruct rounds as [|k]; [lia|].
  cbn [play_loop].
  destruct (first_legal_offers n b inputs (proj1 Hwf) Hne Hoff)
    as (h & rest & Ef & Hoff').
  destruct (getPlayerMove_spec rng sample sample_perm b inputs r) as (r1 & E1).
  unfold loop_result in E1. rewrite Ef in E1.
  rewrite (bind_Ok _ _ _ _ _ E1). cbn [fst snd].
  apply first_legal_legal in Ef. rewrite open_squares_empties in Ef.
  destruct (unbeaten_human n b h Hu Ef) as (W1 & Hnext).
  destruct (getNewBoardWithMove_legal rng sample sample_perm b h r1 Ef)
    as (r2 & E2).
  rewrite (bind_Ok _ _ _ _ _ E2).
  pose proof (wf_place b h Hwf) as Hwf1.
  pose proof (empties_place b h (proj2 Hwf) Ef) as Hlen1.
  pose proof (wf_empties_bound b Hwf) as Hb.
  set (b1 := place b h) in *.
  destruct (checkForEnd_report_spec rng sample sample_perm b1 "Human"%string
              r2 (proj1 Hwf1)) as (r3 & E3).
  rewrite (bind_Ok _ _ _ _ _ E3), W1.
  destruct (Nat.eqb (length (empties b1)) 0) eqn:En1; [do 2 eexists; reflexivity|].
  apply Nat.eqb_neq in En1.
  destruct Hnext as [Hnil|Hnext]; [rewrite Hnil in En1; simpl in En1; lia|].
  assert (Hf1 : (length (empties b1) <= fuel)%nat) by lia.
  destruct (findBestMove_result sample b1 fuel r3 sample_perm Hwf1 Hf1)
    as [(Hnil & _)|(c & r4 & E4 & Hcin & Hall)];
    [rewrite Hnil in En1; simpl in En1; lia|].
  rewrite (bind_Ok _ _ _ _ _ E4).
  destruct (getNewBoardWithMove_legal rng sample sample_perm b1 c r4 Hcin)
    as (r5 & E5).
  rewrite (bind_Ok _ _ _ _ _ E5).
  pose proof (wf_place b1 c Hwf1) as Hwf2.
  specialize (Hnext c Hcin Hall).
  assert (Hc2 : _current_player (place b1 c) = X).
  { unfold b1. simpl. unfold oppositePlayer. simpl.
    unfold oppositePlayer. now rewrite Hc. }
  set (b2 := place b1 c) in *.
  destruct (checkForEnd_report_spec rng sample sample_perm b2
              "Computer"%string r5 (proj1 Hwf2)) as (r6 & E6).
  rewrite (bind_Ok _ _ _ _ _ E6).
  destruct (winb b2) eqn:W2; [do 2 eexists; reflexivity|].
  destruct (Nat.eqb (length (empties b2)) 0) eqn:En2; [do 2 eexists; reflexivity|].
  apply Nat.eqb_neq in En2.
  destruct Hnext as [Hw|[Hnil|Hu2]];
    [discriminate|rewrite Hnil in En2; simpl in En2; lia|].
  apply (IH k b2 rest r6 Hwf2 Hc2 Hu2); [|lia|exact Hoff'].
  intros Hnil. rewrite Hnil in En2. simpl in En2. lia.
Qed.

(** X14: the game ends.  If the loop of [play] may run five times and the
    input offers a legal move for five turns (five successive stretches in
    each of which every number from 0 to 8 occurs), [play] returns, after the
    last [checkForEnd] has printed that the computer wins or that the game is
    a draw. *)
Theorem play_ends (rounds fuel : nat) (inputs : list (option Z)) (r : rng) :
  (8 <= fuel)%nat -> (5 <= rounds)%nat -> offers 5 inputs ->
  exists bf msg rest r',
    play sample rounds fuel inputs r = (Ok (bf, msg, rest), r') /\
    (msg = "Computer wins!"%string \/ msg = "It's a draw!"%string).
Proof.
  intros Hfuel Hr Hoff.
  destruct (play_loop_ends fuel Hfuel 5 rounds initial inputs r wf_initial
              eq_refl unbeaten_initial) as (out & r' & E);
    [discriminate|exact Hr|exact Hoff|].
  pose proof (play_loop_safe rng sample sample_perm fuel Hfuel rounds 5
                initial inputs r wf_initial eq_refl unbeaten_initial) as Hs.
  rewrite E in Hs. destruct out as [[bf msg] rest]. simpl in Hs.
  exists bf, msg, rest, r'. split; [exact E|]. tauto.
Qed.

End GameEnds.

Lemma play_ends_witness :
  exists bf msg rest r',
    play sample_rev 5 8 (digits ++ digits ++ digits ++ digits ++ digits) tt
    = (Ok (bf, msg, rest), r') /\
    (msg = "Computer wins!"%string \/ msg = "It's a draw!"%string).
Proof.
  apply (play_ends unit sample_rev sample_rev_perm 5 8
           (digits ++ digits ++ digits ++ digits ++ digits) tt);
    [lia|lia|exact offers_digits].
Defined.

(** ** Squares are not shared between boards *)

Lemma obj_getNewBoardWithMove_squares {rng}
      (sample : list Z -> rng -> list Z * rng)
      (h : Obj.heap) (b : Obj.Board) (i : Z) (r : rng)
      (b' : Obj.Board) (h' : Obj.heap) (r' : rng) :
  (forall l r, Permutation (fst (sample l r)) l) ->
  obj_wf h b ->
  Obj.getNewBoardWithMove sample h b i r = ((Ok b', h'), r') ->
  Obj._board b' = seq (length h) (length (Obj._board b)).
Proof.
  intros Hperm (Hnd & Hall).
  unfold Obj.getNewBoardWithMove, Obj.getLegalMoves.
  pose proof (Hperm (Obj.open_squares h b) r) as P.
  destruct (sample (Obj.open_squares h b) r) as [legal r0] eqn:Es.
  simpl in P. rewrite obj_open_squares_view in P.
  rewrite (mem_Permutation i _ _ P).
  destruct (mem i (open_squares (view h b))) eqn:Em; simpl negb; cbv iota;
    [|discriminate].
  apply mem_In in Em. rewrite open_squares_empties in Em.
  apply empties_In in Em. destruct Em as (Hr & _).
  simpl in Hr. rewrite length_map in Hr.
  rewrite (deepcopy_fresh _ h [] Hnd (fun _ _ => eq_refl) Hall).
  rewrite (py_get_seq _ _ _ Hr).
  intros E. injection E as <- _ _. reflexivity.
Qed.

(** X15: the board object returned by [getNewBoardWithMove] is made of new
    squares.  For a board whose squares are allocated and distinct, the
    squares of the returned board are allocated and distinct as well, none of
    them is a square of the board the call was made on, and the returned
    board denotes what the value-level [getNewBoardWithMove] returns. *)
Theorem getNewBoardWithMove_fresh_squares {rng}
        (sample : list Z -> rng -> list Z * rng)
        (h : Obj.heap) (b : Obj.Board) (i : Z) (r : rng)
        (b' : Obj.Board) (h' : Obj.heap) (r' : rng) :
  (forall l r, Permutation (fst (sample l r)) l) ->
  obj_wf h b ->
  Obj.getNewBoardWithMove sample h b i r = ((Ok b', h'), r') ->
  obj_wf h' b' /\
  (forall s, In s (Obj._board b') -> ~ In s (Obj._board b)) /\
  getNewBoardWithMove sample (view h b) i r = (Ok (view h' b'), r').
Proof.
  intros Hperm Hwf E.
  pose proof (obj_getNewBoardWithMove_squares sample h b i r b' h' r'
                Hperm Hwf E) as Hsq.
  destruct (obj_getNewBoardWithMove_refines sample h b i r Hperm Hwf)
    as (res & h2 & r2 & E2 & Hv & Hwf').
  rewrite E in E2. injection E2 as <- <- <-.
  split; [now apply Hwf'|]. split; [|exact Hv].
  intros s Hs Hold. rewrite Hsq in Hs. apply in_seq in Hs.
  destruct Hwf as (_ & Hall). rewrite Forall_forall in Hall.
  specialize (Hall s Hold). lia.
Qed.

Lemma getNewBoardWithMove_fresh_squares_witness :
  obj_wf (initial_heap ++ set_nth (repeat NONE 9) 4 X)
         (Obj.mkBoard (seq 9 9) O) /\
  (forall s, In s (Obj._board (Obj.mkBoard (seq 9 9) O)) ->
             ~ In s (Obj._board initial_obj)) /\
  getNewBoardWithMove sample_rev (view initial_heap initial_obj) 4 tt
  = (Ok (view (initial_heap ++ set_nth (repeat NONE 9) 4 X)
              (Obj.mkBoard (seq 9 9) O)), tt).
Proof.
  apply (getNewBoardWithMove_fresh_squares sample_rev initial_heap initial_obj
           4 tt (Obj.mkBoard (seq 9 9) O)
           (initial_heap ++ set_nth (repeat NONE 9) 4 X) tt
           sample_rev_perm obj_wf_initial).
  reflexivity.
Defined.

(** ** A win in one move *)

(** X16: on a board of nine squares with a player to move, if some legal
    move completes a line, [findBestMove] returns a move of score 1: on the
    board after the returned move [minimax], not maximizing, returns 1 for
    the player who moved. *)
Theorem findBestMove_takes_win {rng} (sample : list Z -> rng -> list Z * rng)
        (b : Board) (fuel : nat) (w : Z) (r r0 r1 : rng)
        (bw : Board) (rw : rng) :
  (forall l r, Permutation (fst (sample l r)) l) ->
  wf b -> (length (open_squares b) <= fuel)%nat ->
  getNewBoardWithMove sample b w r0 = (Ok bw, rw) ->
  isWin bw = Ok true ->
  exists m r' b' r1',
    findBestMove sample fuel b r = (Ok (Some m), r') /\
    getNewBoardWithMove sample b m r1 = (Ok b', r1') /\
    fst (minimax sample fuel b' false (getCurrentPlayer b) r1') = Ok (Int 1).
Proof.
  intros Hperm Hwf Hf Ew Hwin. rewrite open_squares_empties in Hf.
  pose proof Hwf as (Hl & Hc).
  destruct (in_dec Z.eq_dec w (empties b)) as [Hin|Hout].
  2:{ destruct (getNewBoardWithMove_illegal rng sample Hperm b w r0 Hout)
        as (r2 & E2). rewrite E2 in Ew. discriminate. }
  destruct (getNewBoardWithMove_legal rng sample Hperm b w r0 Hin) as (r2 & E2).
  rewrite E2 in Ew. injection Ew as <- _.
  rewrite (isWin_winb _ (proj1 (wf_place b w Hwf))) in Hwin.
  injection Hwin as Hwin.
  assert (Hsw : score b w = 1).
  { unfold score. rewrite value_eq, Hwin. simpl _current_player.
    unfold oppositePlayer. destruct (_current_player b); simpl; congruence. }
  destruct (findBestMove_result sample b fuel r Hperm Hwf Hf)
    as [(En & _)|(m & r' & E & Hm & Hall)];
    [rewrite En in Hin; destruct Hin|].
  destruct (getNewBoardWithMove_legal rng sample Hperm b m r1 Hm)
    as (r1' & E1).
  assert (Hfc : (length (empties (place b m)) < fuel)%nat).
  { pose proof (empties_place b m Hc Hm). lia. }
  destruct (minimax_value rng sample Hperm fuel (place b m) false
              (getCurrentPlayer b) r1' (wf_place b m Hwf) Hfc) as (r3 & E3).
  exists m, r', (place b m), r1'.
  split; [exact E|]. split; [exact E1|].
  rewrite E3. cbn [fst]. do 2 apply f_equal.
  specialize (Hall w Hin). rewrite Hsw in Hall.
  pose proof (value_range 9 (place b m) false (getCurrentPlayer b)) as Hrange.
  unfold score in Hall. unfold getCurrentPlayer in *. lia.
Qed.

Lemma findBestMove_takes_win_witness :
  exists m r' b' r1',
    findBestMove sample_rev 3 mid_board tt = (Ok (Some m), r') /\
    getNewBoardWithMove sample_rev mid_board m tt = (Ok b', r1') /\
    fst (minimax sample_rev 3 b' false (getCurrentPlayer mid_board) r1')
    = Ok (Int 1).
Proof.
  apply (findBestMove_takes_win sample_rev mid_board 3 6 tt tt tt
           (place mid_board 6) tt sample_rev_perm wf_mid_board).
  - vm_compute. lia.
  - reflexivity.
  - reflexivity.
Defined.
